(** * mab-calculator: statement parsing and balance analytics

    A shallow embedding of [backend/pdf_parser.py] ([parse_transactions])
    and of the balance helpers of [backend/app.py]
    ([calculate_daily_balances], [calculate_monthly_statistics],
    [analyze_balance_maintenance]) and the checks of its upload endpoint
    ([allowed_file], [upload]), with the properties the specification
    states about them and further properties read off the code.

    Conventions of the embedding.
    - A Python [str] is a [string]; a character is a code point below 256.
      On that range [\d] is [0-9], and [\s] / [str.isspace] accept
      9-13, 28-32, 133 and 160.
    - A Python [float] is an exact rational ([Q]); [round(x, 2)] is a
      parameter of the functions that call it.
    - [datetime.strptime(t['date'], '%d %b %Y')] is the library's: the
      analytics are embedded over transactions whose date is already the
      parsed calendar day, held as its proleptic Gregorian ordinal
      ([date.toordinal()]); such a datetime has no time of day.
    - A raised exception is a value of [result]. *)

From Stdlib Require Import ZArith QArith Lqa Ascii String.
From stdpp Require Import gmap strings list fin_maps.

Local Open Scope string_scope.

(** ** Characters and strings, as [str] uses them *)

Module Str.

Definition code (c : ascii) : N := N_of_ascii c.

(** [\d] on code points below 256. *)
Definition is_digit (c : ascii) : bool :=
  ((48 <=? code c) && (code c <=? 57))%N.

(** [\s], which is also [str.isspace], on code points below 256. *)
Definition is_space (c : ascii) : bool :=
  (((9 <=? code c) && (code c <=? 13)) || ((28 <=? code c) && (code c <=? 32))
   || (code c =? 133) || (code c =? 160))%N.

(** [[\d,]] *)
Definition is_digit_or_comma (c : ascii) : bool :=
  is_digit c || (code c =? 44)%N.

(** [str.lower] on one code point below 256: A-Z and the Latin-1 capitals
    (all of 192-222 but the multiplication sign 215) move up by 32. *)
Definition lower_char (c : ascii) : ascii :=
  let n := code c in
  if (((65 <=? n) && (n <=? 90)) || ((192 <=? n) && (n <=? 222) && negb (n =? 215)))%N
  then ascii_of_N (n + 32) else c.

Fixpoint lower (s : string) : string :=
  match s with
  | EmptyString => EmptyString
  | String c s' => String (lower_char c) (lower s')
  end.

Fixpoint starts_with (w s : string) : bool :=
  match w, s with
  | EmptyString, _ => true
  | String a w', String b s' => if Ascii.eqb a b then starts_with w' s' else false
  | String _ _, EmptyString => false
  end.

(** [w in s] *)
Fixpoint contains (w s : string) : bool :=
  starts_with w s ||
  match s with
  | EmptyString => false
  | String _ s' => contains w s'
  end.

(** [not s.strip()]: nothing but white space. *)
Fixpoint is_blank (s : string) : bool :=
  match s with
  | EmptyString => true
  | String c s' => is_space c && is_blank s'
  end.

(** [s.split(sep)] for a one-character separator: never the empty list. *)
Fixpoint split (sep : ascii) (s : string) : list string :=
  match s with
  | EmptyString => [EmptyString]
  | String c s' =>
      if Ascii.eqb c sep then EmptyString :: split sep s'
      else match split sep s' with
           | [] => [String c EmptyString]
           | w :: ws => String c w :: ws
           end
  end.

(** [sep.join(ws)] *)
Fixpoint join (sep : string) (ws : list string) : string :=
  match ws with
  | [] => EmptyString
  | [w] => w
  | w :: ws' => w +:+ sep +:+ join sep ws'
  end.

(** [s[:n]] *)
Fixpoint take (n : nat) (s : string) : string :=
  match n, s with
  | S n', String c s' => String c (take n' s')
  | _, _ => EmptyString
  end.

(** [s.replace(c, "")] for one character. *)
Fixpoint remove_char (c : ascii) (s : string) : string :=
  match s with
  | EmptyString => EmptyString
  | String a s' => if Ascii.eqb a c then remove_char c s' else String a (remove_char c s')
  end.

Definition nl : ascii := ascii_of_N 10.
Definition tab : ascii := ascii_of_N 9.

End Str.

(** ** The regular expressions of the parser

    Python's [re] is a backtracking matcher.  A pattern is embedded as a
    function from its continuation to a matcher of the remaining input, so
    that alternatives are tried in the written order and repetitions are
    greedy and give characters back.  A result is the text of group 1 and
    the input left after the whole match. *)

Module Re.

Definition outcome : Type := option (string * string).
Definition cont : Type := string → outcome.
Definition rx : Type := cont → cont.

(** one character of a class *)
Definition cls (p : ascii → bool) : rx := λ k s,
  match s with
  | String c s' => if p c then k s' else None
  | EmptyString => None
  end.

Definition chr (a : ascii) : rx := cls (Ascii.eqb a).

(** a literal word *)
Fixpoint lit (w : string) : rx := λ k s,
  match w with
  | EmptyString => k s
  | String a w' =>
      match s with
      | String c s' => if Ascii.eqb a c then lit w' k s' else None
      | EmptyString => None
      end
  end.

Definition seq (a b : rx) : rx := λ k, a (b k).

(** [a|b]: the left branch first *)
Definition alt (a b : rx) : rx := λ k s,
  match a k s with
  | Some r => Some r
  | None => b k s
  end.

Fixpoint alts (l : list rx) : rx :=
  match l with
  | [] => λ _ _, None
  | a :: l' => alt a (alts l')
  end.

(** [p+] on a class, greedy: one more character first, the rest of the
    pattern only when that fails *)
Fixpoint many1 (p : ascii → bool) (k : cont) (s : string) : outcome :=
  match s with
  | String c s' =>
      if p c then
        match many1 p k s' with
        | Some r => Some r
        | None => k s'
        end
      else None
  | EmptyString => None
  end.

(** [a?], greedy *)
Definition opt (a : rx) : rx := alt a (λ k, k).

(** [a{n}] *)
Fixpoint rep (n : nat) (a : rx) : rx :=
  match n with
  | O => λ k, k
  | S n' => seq a (rep n' a)
  end.

(** [^] without MULTILINE: only at offset 0 *)
Definition bol (at_start : bool) : rx := λ k s,
  if at_start then k s else None.

(** [$] without MULTILINE: at the end, or before a final newline *)
Definition eol : rx := λ k s,
  match s with
  | EmptyString => k s
  | String c EmptyString => if Ascii.eqb c Str.nl then k s else None
  | _ => None
  end.

(** [(a)] as group 1: the text [a] consumed *)
Definition group (a : rx) : rx := λ k s,
  a (λ rest,
       match k rest with
       | Some (_, e) => Some (Str.take (String.length s - String.length rest) s, e)
       | None => None
       end) s.

(** the end of the pattern *)
Definition accept : cont := λ rest, Some (EmptyString, rest).

(** A pattern, told whether it is tried at offset 0. *)
Definition pattern : Type := bool → rx.

Definition match_here (pat : pattern) (at_start : bool) (s : string) : outcome :=
  pat at_start accept s.

(** [re.search(pat, s)]: the leftmost match; [Some (group 1, rest)]. *)
Fixpoint search_from (pat : pattern) (at_start : bool) (s : string) : outcome :=
  match match_here pat at_start s with
  | Some r => Some r
  | None =>
      match s with
      | EmptyString => None
      | String _ s' => search_from pat false s'
      end
  end.

Definition search (pat : pattern) (s : string) : outcome := search_from pat true s.

(** [re.findall(pat, s)] for a pattern with one group that matches no
    empty text: group 1 of the successive matches, each search starting
    where the last match ended.  [skip] counts the characters of the last
    match still to be passed. *)
Fixpoint findall_from (pat : pattern) (skip : nat) (at_start : bool) (s : string)
  : list string :=
  match skip with
  | S skip' =>
      match s with
      | EmptyString => []
      | String _ s' => findall_from pat skip' false s'
      end
  | O =>
      match match_here pat at_start s with
      | Some (g, rest) =>
          g :: match s with
               | EmptyString => []
               | String _ s' =>
                   findall_from pat (String.length s - String.length rest - 1) false s'
               end
      | None =>
          match s with
          | EmptyString => []
          | String _ s' => findall_from pat 0 false s'
          end
      end
  end.

Definition findall (pat : pattern) (s : string) : list string :=
  findall_from pat 0 true s.

(** *** Matching on a longer input

    [extends k k']: where [k] matches, [k'] matches on any longer input;
    [ext a]: the pattern [a] keeps that. *)

Definition extends (k k' : cont) : Prop :=
  ∀ s t, is_Some (k s) → is_Some (k' (s +:+ t)).

Definition ext (a : rx) : Prop :=
  ∀ k k', extends k k' → extends (a k) (a k').

End Re.

(** ** [pdf_parser.parse_transactions] *)

Module Parser.
Import Str Re.

(** One parsed row: the dict built by [parse_transactions].  The key
    ['amount'] is present only in the dict built after the loop. *)
Record Transaction : Type := mkTransaction {
  date : string;
  debit : Q;
  credit : Q;
  balance : Q;
  amount : option Q;
  description : string
}.

Definition digit : rx := cls is_digit.

Definition months : list string :=
  ["Jan"; "Feb"; "Mar"; "Apr"; "May"; "Jun"; "Jul"; "Aug"; "Sep"; "Oct"; "Nov"; "Dec"].

(** [(\d{1,2}\s+(?:Jan|...|Dec)\s+\d{4})] *)
Definition date_pattern : pattern := λ _,
  group (seq digit (seq (opt digit)
          (seq (many1 is_space)
            (seq (alts (lit <$> months))
              (seq (many1 is_space) (rep 4 digit)))))).

(** [(?:^|\s)([\d,]+\.\d{2})(?:\s|$)] *)
Definition amount_pattern : pattern := λ at_start,
  seq (alt (bol at_start) (cls is_space))
    (seq (group (seq (many1 is_digit_or_comma) (seq (chr ".") (rep 2 digit))))
       (alt (cls is_space) eol)).

(** The value of a run of decimal digits. *)
Fixpoint digits_value (acc : Z) (s : string) : Z :=
  match s with
  | EmptyString => acc
  | String c s' =>
      if is_digit c then digits_value (10 * acc + Z.of_N (code c - 48)) s'
      else digits_value acc s'
  end.

(** [float(a)] for a decimal literal [digits . digits]: the number it
    denotes.  (With no point the text is an integer.) *)
Definition float (a : string) : Q :=
  match split "." a with
  | [i; f] =>
      Qmake (digits_value (digits_value 0 i) f) (Pos.of_nat (10 ^ String.length f))
  | _ => inject_Z (digits_value 0 a)
  end.

Definition debit_words : list string := ["debit"; "transfer to"; "paid to"].

(** [amounts = [float(a.replace(",", "")) for a in re.findall(...) if a]] *)
Definition amounts_of (full_text : string) : list Q :=
  (λ a, float (remove_char "," a)) <$>
    filter (λ a, a ≠ EmptyString) (findall amount_pattern full_text).

(** [any(x in full_text.lower() for x in [...])] *)
Definition is_debit (full_text : string) : bool :=
  existsb (λ x, contains x (lower full_text)) debit_words.

(** The values [(debit, credit, balance)] that both copies of the block
    builder compute from the joined text of a block. *)
Definition classify (full_text : string) : Q * Q * Q :=
  let amounts := amounts_of full_text in
  match reverse amounts with
  | [] => (0%Q, 0%Q, 0%Q)
  | [b] => (0%Q, 0%Q, b)
  | b :: transaction_amount :: _ =>
      if is_debit full_text then (transaction_amount, 0%Q, b)
      else (0%Q, transaction_amount, b)
  end.

(** [full_text.split("\n")[0]] *)
Definition first_line (full_text : string) : string :=
  match split nl full_text with
  | l :: _ => l
  | [] => EmptyString
  end.

(** The dict appended inside the loop (lines 123-162): [date_str] is
    group 1 of [date_match], the match on the line being read. *)
Definition row_in_loop (current_row : list string) (date_str : string) : Transaction :=
  let full_text := join " " current_row in
  let '(d, c, b) := classify full_text in
  {| date := date_str; debit := d; credit := c; balance := b;
     amount := None; description := first_line full_text |}.

(** The dict appended after the loop (lines 172-208), when the joined
    text holds a date. *)
Definition row_at_end (current_row : list string) : option Transaction :=
  let full_text := join " " current_row in
  let '(d, c, b) := classify full_text in
  match search date_pattern full_text with
  | Some (date_str, _) =>
      Some {| date := date_str; debit := d; credit := c; balance := b;
              amount := Some (if Qlt_le_dec 0%Q d then (- d)%Q else c);
              description := first_line full_text |}
  | None => None
  end.

(** The variables of the loop over the lines. *)
Record state : Type := mkState {
  transactions : list Transaction;
  current_row : list string;
  inside_table : bool;
  header_found : bool
}.

Definition init : state :=
  {| transactions := []; current_row := []; inside_table := false;
     header_found := false |}.

Definition header_words : list string := ["Txn Date"; "Date"; "Description"].

(** One turn of [for line in lines]. *)
Definition step (st : state) (line : string) : state :=
  if negb (header_found st) && forallb (λ x, contains x line) header_words then
    {| transactions := transactions st; current_row := current_row st;
       inside_table := inside_table st; header_found := true |}
  else if negb (header_found st) then st
  else if is_blank line || contains "Txn Date" line then st
  else
    match search date_pattern line with
    | Some (date_str, _) =>
        {| transactions :=
             match current_row st with
             | [] => transactions st
             | _ => transactions st ++ [row_in_loop (current_row st) date_str]
             end;
           current_row := [line];
           inside_table := true;
           header_found := header_found st |}
    | None =>
        if inside_table st && negb (is_blank line) then
          {| transactions := transactions st;
             current_row := current_row st ++ [line];
             inside_table := inside_table st;
             header_found := header_found st |}
        else st
    end.

Definition run (lines : list string) : state := foldl step init lines.

(** What the code after the loop appends. *)
Definition finish (st : state) : list Transaction :=
  match current_row st with
  | [] => transactions st
  | _ =>
      match row_at_end (current_row st) with
      | Some t => transactions st ++ [t]
      | None => transactions st
      end
  end.

Definition parse_transactions (text : string) : list Transaction :=
  finish (run (split nl text)).

(** *** The amounts of a block, in the specification's words

    The specification reads the amounts of a block as every run
    [digits-and-commas . two digits] that has white space or an end of the
    text on each side: the words of the text, cut at white space, that are
    of that shape.  [spec_amounts] follows those words, for comparison with
    what [re.findall] returns on the code's pattern. *)

Fixpoint words (s : string) : list string :=
  match s with
  | EmptyString => [EmptyString]
  | String c s' =>
      if is_space c then EmptyString :: words s'
      else match words s' with
           | [] => [String c EmptyString]
           | w :: ws => String c w :: ws
           end
  end.

Definition is_amount (w : string) : bool :=
  match seq (many1 is_digit_or_comma) (seq (chr ".") (rep 2 digit))
          (λ rest, match rest with EmptyString => accept rest | _ => None end) w with
  | Some _ => true
  | None => false
  end.

Definition spec_amounts (full_text : string) : list string :=
  filter (λ w, is_amount w = true) (words full_text).

(** *** What the loop keeps true

    The rows closed so far have no ['amount']; no row is closed before a
    block is open; [inside_table] is set only with a block open; and the
    first line of the open block holds a date. *)

Definition no_amount (t : Transaction) : Prop := amount t = None.

(** One of debit and credit is 0. *)
Definition exclusive (t : Transaction) : Prop := debit t = 0%Q ∨ credit t = 0%Q.

Definition dated_block (row : list string) : Prop :=
  match row with
  | [] => True
  | first :: _ => is_Some (search date_pattern first)
  end.

Record inv (st : state) : Prop := mkInv {
  inv_rows : Forall no_amount (transactions st);
  inv_open : current_row st = [] → transactions st = [];
  inv_inside : inside_table st = true → current_row st ≠ [];
  inv_dated : dated_block (current_row st)
}.

(** [c in s] for one character. *)
Fixpoint mentions (c : ascii) (s : string) : bool :=
  match s with
  | EmptyString => false
  | String a s' => Ascii.eqb a c || mentions c s'
  end.

(** A statement: the header line and the lines that follow it. *)

Definition header_line : string :=
  "Txn Date Value Date Description Ref No. Debit Credit Balance".

Definition statement (lines : list string) : string :=
  join (String nl EmptyString) (header_line :: lines).

End Parser.

(** ** The calendar of [datetime]

    A day is its proleptic Gregorian ordinal ([date.toordinal()]: 1 is
    1 January of year 1); [timedelta(days=1)] adds one. *)

Module Calendar.
Local Open Scope Z_scope.

(** [date(y, m, d).toordinal()] *)
Definition toordinal (y m d : Z) : Z :=
  let y' := if m <=? 2 then y - 1 else y in
  let era := y' / 400 in
  let yoe := y' - era * 400 in
  let mp := if m <=? 2 then m + 9 else m - 3 in
  let doy := (153 * mp + 2) / 5 + d - 1 in
  let doe := yoe * 365 + yoe / 4 - yoe / 100 + doy in
  era * 146097 + doe - 305.

(** [(date.year, date.month, date.day)] of [date.fromordinal(n)] *)
Definition fromordinal (n : Z) : Z * Z * Z :=
  let z := n + 305 in
  let era := z / 146097 in
  let doe := z - era * 146097 in
  let yoe := (doe - doe / 1460 + doe / 36524 - doe / 146096) / 365 in
  let doy := doe - (365 * yoe + yoe / 4 - yoe / 100) in
  let mp := (5 * doy + 2) / 153 in
  let d := doy - (153 * mp + 2) / 5 + 1 in
  let m := if mp <? 10 then mp + 3 else mp - 9 in
  let y := yoe + era * 400 in
  (if m <=? 2 then y + 1 else y, m, d).

(** [f"{date.year}-{date.month:02d}"], kept as the pair it prints. *)
Definition month_key (n : Z) : Z * Z :=
  let '(y, m, _) := fromordinal n in (y, m).

End Calendar.

(** ** The balance helpers of [app.py] *)

Module Analytics.
Import Calendar.
Local Open Scope Z_scope.

(** What the helpers read of a transaction dict: the day that
    [datetime.strptime(t['date'], '%d %b %Y')] returns and
    [float(t['balance'])]. *)
Record Txn : Type := mkTxn {
  date : Z;
  balance : Q
}.

Inductive exn : Type := IndexError | ValueError.

Inductive result (A : Type) : Type :=
  | Ok (a : A)
  | Raise (e : exn).
Arguments Ok {A} a.
Arguments Raise {A} e.

(** An exception ends the computation: [x ← r; k] goes on with the value
    of [r] only when [r] returned. *)
#[export] Instance result_bind : MBind result := λ A B f r,
  match r with
  | Ok a => f a
  | Raise e => Raise e
  end.

(** [sorted(transactions, key=...)]: the stable sort by day.  A row goes
    in front of the first row that is not earlier than it. *)
Fixpoint insert_by_date (t : Txn) (l : list Txn) : list Txn :=
  match l with
  | [] => [t]
  | u :: l' => if date t <=? date u then t :: u :: l' else u :: insert_by_date t l'
  end.

Definition sorted (l : list Txn) : list Txn := foldr insert_by_date [] l.

(** [[t for t in sorted_trans if ... == current_date.date()]] *)
Definition on_day (d : Z) (l : list Txn) : list Txn :=
  filter (λ t, date t = d) l.

(** The balance after the transactions of day [d]: that of the last one,
    or [current_balance] unchanged when there is none. *)
Definition balance_after (sorted_trans : list Txn) (current_balance : Q) (d : Z) : Q :=
  match last (on_day d sorted_trans) with
  | Some t => balance t
  | None => current_balance
  end.

(** [while current_date <= end_date], by recursion on the number of
    turns left; [while_days] below starts it with the days that remain. *)
Fixpoint days_loop (n : nat) (sorted_trans : list Txn) (end_date current_date : Z)
    (current_balance : Q) (daily_balances : gmap Z Q) : gmap Z Q :=
  match n with
  | O => daily_balances
  | S n' =>
      if current_date <=? end_date then
        let current_balance := balance_after sorted_trans current_balance current_date in
        days_loop n' sorted_trans end_date (current_date + 1) current_balance
          (<[current_date := current_balance]> daily_balances)
      else daily_balances
  end.

Definition while_days (sorted_trans : list Txn) (end_date current_date : Z)
    (current_balance : Q) (daily_balances : gmap Z Q) : gmap Z Q :=
  days_loop (Z.to_nat (end_date + 1 - current_date)) sorted_trans end_date
    current_date current_balance daily_balances.

(** The balance recorded [k] days after [current_date] by a loop entered
    at [current_date] with [current_balance]. *)
Fixpoint carry (sorted_trans : list Txn) (current_balance : Q) (current_date : Z)
    (k : nat) : Q :=
  match k with
  | O => balance_after sorted_trans current_balance current_date
  | S k' =>
      carry sorted_trans (balance_after sorted_trans current_balance current_date)
        (current_date + 1) k'
  end.

(** [calculate_daily_balances]: the key of a day is the day itself
    (['%Y-%m-%d'] names each day once). *)
Definition calculate_daily_balances (transactions : list Txn) (start_date end_date : Z)
  : result (gmap Z Q) :=
  match sorted transactions with
  | [] => Raise IndexError
  | first :: _ =>
      let current_balance := balance first in
      Ok (while_days (sorted transactions) end_date start_date current_balance
            {[start_date := current_balance]})
  end.

(** [min(xs)] and [max(xs)]: [ValueError] on the empty list, the first
    extremal element otherwise. *)
Definition min_date (l : list Z) : result Z :=
  match l with
  | [] => Raise ValueError
  | x :: l' => Ok (foldl Z.min x l')
  end.

Definition max_date (l : list Z) : result Z :=
  match l with
  | [] => Raise ValueError
  | x :: l' => Ok (foldl Z.max x l')
  end.

Definition qmin (a b : Q) : Q := if Qlt_le_dec b a then b else a.
Definition qmax (a b : Q) : Q := if Qlt_le_dec a b then b else a.

Definition min_balance_of (l : list Q) : result Q :=
  match l with
  | [] => Raise ValueError
  | x :: l' => Ok (foldl qmin x l')
  end.

Definition max_balance_of (l : list Q) : result Q :=
  match l with
  | [] => Raise ValueError
  | x :: l' => Ok (foldl qmax x l')
  end.

(** [sum(xs)] *)
Definition qsum (l : list Q) : Q := foldl Qplus 0%Q l.

(** [list(d.values())].  The order of the entries is not kept: over exact
    rationals [sum], [min] and [max] do not depend on it. *)
Definition values (m : gmap Z Q) : list Q := (map_to_list m).*2.

(** [monthly_transactions[month_key].append(trans)] over the rows. *)
Definition append_row (m : gmap (Z * Z) (list Txn)) (t : Txn) : gmap (Z * Z) (list Txn) :=
  <[month_key (date t) := (default [] (m !! month_key (date t)) ++ [t])%list]> m.

Definition group_by_month (transactions : list Txn) : gmap (Z * Z) (list Txn) :=
  foldl append_row ∅ transactions.


(** The entry of [monthly_stats] that the first loop fills for a month. *)
Record RawStats : Type := mkRawStats {
  raw_min : Q;
  raw_max : Q;
  total_balance : Q;
  count : nat;
  raw_daily : gmap Z Q
}.

Definition month_raw (month_trans : list Txn) : result RawStats :=
  month_start ← min_date (date <$> month_trans);
  month_end ← max_date (date <$> month_trans);
  daily_balances ← calculate_daily_balances month_trans month_start month_end;
  let balances := values daily_balances in
  lo ← min_balance_of balances;
  hi ← max_balance_of balances;
  Ok {| raw_min := lo; raw_max := hi; total_balance := qsum balances;
        count := List.length balances; raw_daily := daily_balances |}.

(** Running a loop body over the items of a dict: the first exception
    ends it. *)
Fixpoint first_raise {A : Type} (l : list (result A)) : option exn :=
  match l with
  | [] => None
  | Raise e :: _ => Some e
  | Ok _ :: l' => first_raise l'
  end.

Definition ok_value {A : Type} (r : result A) : option A :=
  match r with
  | Ok a => Some a
  | Raise _ => None
  end.

Definition for_items {K : Type} `{Countable K} {A B : Type}
    (body : A → result B) (m : gmap K A) : result (gmap K B) :=
  match first_raise ((λ kv, body kv.2) <$> map_to_list m) with
  | Some e => Raise e
  | None => Ok (omap (λ a, ok_value (body a)) m)
  end.

Section Rounded.

(** [round(x, ndigits)] *)
Variable round : Q → nat → Q.

Record MabCalculation : Type := mkMabCalculation {
  sum_of_daily_balances : Q;
  number_of_days : nat;
  formula : string;
  (** the numbers the f-string ['calculation'] prints *)
  calculation : Q * nat * Q
}.

Record MonthStats : Type := mkMonthStats {
  min_balance : Q;
  max_balance : Q;
  avg_balance : Q;
  days_maintained : nat;
  daily_balances : gmap Z Q;
  mab_calculation : MabCalculation
}.

(** The second loop: the entry of [results] for a month with days. *)
Definition month_result (stats : RawStats) : option MonthStats :=
  if (0 <? count stats)%nat then
    let avg := (total_balance stats / inject_Z (Z.of_nat (count stats)))%Q in
    Some {| min_balance := round (raw_min stats) 2;
            max_balance := round (raw_max stats) 2;
            avg_balance := round avg 2;
            days_maintained := count stats;
            daily_balances := raw_daily stats;
            mab_calculation :=
              {| sum_of_daily_balances := round (total_balance stats) 2;
                 number_of_days := count stats;
                 formula := "MAB = Sum of daily balances / Number of days";
                 calculation :=
                   (round (total_balance stats) 2, count stats, round avg 2) |} |}
  else None.

(** [overall_start] and [overall_end] are computed and never read; on a
    list with rows [min] and [max] return, so they are left out. *)
Definition calculate_monthly_statistics (transactions : list Txn)
  : result (gmap (Z * Z) MonthStats) :=
  match transactions with
  | [] => Ok ∅
  | _ =>
      match for_items month_raw (group_by_month transactions) with
      | Ok monthly_stats => Ok (omap month_result monthly_stats)
      | Raise e => Raise e
      end
  end.

End Rounded.

End Analytics.

(** ** [app.analyze_balance_maintenance] *)

Module Maintenance.
Import Calendar Analytics.
Local Open Scope Q_scope.

(** The f-string of ['maintenance_status'], kept as its template and the
    number it prints. *)
Inductive Status : Type :=
  | NoTransactionsFound
  | NoTargetSpecified
  | TargetMaintained (percent : Q)
  | BelowTarget (percent : Q).

(** The text of ['recommendation'], kept as its template and the numbers
    it prints. *)
Inductive Recommendation : Type :=
  | UnableToRecommend
  | SetATarget
  | InvestExcess (avg_balance excess : Q)
  | MeetingTarget (avg_balance target_balance : Q)
  | DepositMonthly (target_balance required_monthly_balance monthly_deposit : Q).

Record Report : Type := mkReport {
  average_balance : Q;
  min_balance : Q;
  max_balance : Q;
  maintenance_status : Status;
  recommendation : Recommendation;
  target_balance : Q;
  maintenance_percentage : Q;
  statement_period : (Z * Z) * (Z * Z);
  balance_difference : Q;
  is_below_target : bool
}.

(** The returned dict: three keys without transactions, the report
    otherwise. *)
Inductive Analysis : Type :=
  | NoData (average_balance : Q) (maintenance_status : Status)
      (recommendation : Recommendation)
  | Full (r : Report).

Definition qlt (a b : Q) : bool := negb (Qle_bool b a).

(** [sum(balances) / len(balances)] *)
Definition mean (balances : list Q) : Q :=
  qsum balances / inject_Z (Z.of_nat (List.length balances)).

(** [float(target_balance) if target_balance else 0]: an absent target
    and the number 0 are both false. *)
Definition target_of (target_balance : option Q) : Q :=
  match target_balance with
  | Some q => if Qeq_bool q 0 then 0 else q
  | None => 0
  end.

(** The branches on lines 170-199. *)
Definition advise (avg_balance target_balance maintenance_percent : Q)
  : Status * Recommendation :=
  if Qeq_bool target_balance 0 then (NoTargetSpecified, SetATarget)
  else if Qle_bool target_balance avg_balance then
    (TargetMaintained maintenance_percent,
     if qlt (target_balance * 1.5) avg_balance then
       let excess := avg_balance - target_balance in
       InvestExcess avg_balance excess
     else MeetingTarget avg_balance target_balance)
  else
    let shortfall := target_balance - avg_balance in
    let monthly_deposit := shortfall / 3 in
    let required_monthly_balance := qmax target_balance (avg_balance + monthly_deposit) in
    (BelowTarget maintenance_percent,
     DepositMonthly target_balance required_monthly_balance monthly_deposit).

Section Rounded.

(** [round(x, ndigits)] *)
Variable round : Q → nat → Q.

Definition analyze_balance_maintenance (transactions : list Txn)
    (target_balance : option Q) : Analysis :=
  match transactions with
  | [] => NoData 0 NoTransactionsFound UnableToRecommend
  | t :: rest =>
      let start_date := foldl Z.min (date t) (date <$> rest) in
      let end_date := foldl Z.max (date t) (date <$> rest) in
      let balances := balance <$> transactions in
      let avg_balance := mean balances in
      let min_balance := foldl qmin (balance t) (balance <$> rest) in
      let max_balance := foldl qmax (balance t) (balance <$> rest) in
      let target_balance := target_of target_balance in
      let maintenance_percent :=
        if qlt 0 target_balance then avg_balance / target_balance * 100 else 0 in
      let '(status, recommendation) :=
        advise avg_balance target_balance maintenance_percent in
      let balance_difference :=
        if qlt avg_balance target_balance then target_balance - avg_balance
        else avg_balance - target_balance in
      Full {| average_balance := round avg_balance 2;
              min_balance := round min_balance 2;
              max_balance := round max_balance 2;
              maintenance_status := status;
              recommendation := recommendation;
              target_balance := target_balance;
              maintenance_percentage := round maintenance_percent 1;
              statement_period := (month_key start_date, month_key end_date);
              balance_difference := round balance_difference 2;
              is_below_target := qlt avg_balance target_balance |}
  end.

End Rounded.

End Maintenance.

(** ** The lines of a statement, as the parser sorts them *)

Module ParserView.
Import Str Re Parser.

(** [all(x in line for x in ["Txn Date", "Date", "Description"])] *)
Definition is_header (line : string) : bool :=
  forallb (λ x, contains x line) header_words.

(** [not line.strip() or "Txn Date" in line] *)
Definition skipped (line : string) : bool :=
  is_blank line || contains "Txn Date" line.

(** A line that is read past the header, is not skipped, and on which
    [re.search(date_pattern, line)] matches. *)
Definition opens_block (line : string) : bool :=
  negb (skipped line) && bool_decide (is_Some (search date_pattern line)).

(** The lines after the first header line. *)
Fixpoint after_header (lines : list string) : list string :=
  match lines with
  | [] => []
  | line :: rest => if is_header line then rest else after_header rest
  end.

(** The variables of the loop once the header line is passed. *)
Definition seen_header : state :=
  {| transactions := []; current_row := []; inside_table := false;
     header_found := true |}.

(** ["\n".join(lines)] *)
Definition unlines (lines : list string) : string :=
  join (String nl EmptyString) lines.

(** The rows counted so far: those closed, and the open block. *)
Definition rows_so_far (st : state) : nat :=
  List.length (transactions st) +
  match current_row st with
  | [] => 0
  | _ => 1
  end.

(** The words that have the shape of an amount. *)
Definition amounts_among (ws : list string) : list string :=
  filter (λ w, is_amount w = true) ws.

(** The group of the amount pattern, [[\d,]+\.\d{2}], and the pattern
    behind its first alternative: the group and what follows it. *)
Definition amount_body : rx :=
  seq (many1 is_digit_or_comma) (seq (chr ".") (rep 2 digit)).

Definition amount_tail : cont :=
  seq (group amount_body) (alt (cls is_space) eol) accept.

End ParserView.

(** ** The checks of the upload endpoint *)

Module Upload.
Import Str.

Definition ALLOWED_EXTENSIONS : list string := ["pdf"; "png"; "jpg"; "jpeg"].

(** [s.rsplit(sep, 1)]: cut at the last [sep]; the text alone when it
    holds none. *)
Fixpoint rsplit1 (sep : ascii) (s : string) : list string :=
  match s with
  | EmptyString => [EmptyString]
  | String c s' =>
      match rsplit1 sep s' with
      | [h; t] => [String c h; t]
      | _ => if Ascii.eqb c sep then [EmptyString; s'] else [String c s']
      end
  end.

(** [s.endswith(w)] *)
Fixpoint ends_with (w s : string) : bool :=
  String.eqb s w ||
  match s with
  | EmptyString => false
  | String _ s' => ends_with w s'
  end.

(** [allowed_file]: the index [1] is read only when the name holds a
    dot, and then the cut has two parts. *)
Definition allowed_file (filename : string) : bool :=
  contains "." filename &&
  match rsplit1 "." filename with
  | [_; ext] => bool_decide (lower ext ∈ ALLOWED_EXTENSIONS)
  | _ => false
  end.

(** What [upload] answers before it touches the file: the four refusals
    with status 400, or going on to save and parse. *)
Inductive verdict : Type :=
  | NoFileFound
  | NoFileSelected
  | OnlyPdfSupported
  | InvalidFileType
  | Accepted.

(** The checks of [upload] (lines 279-295); [file] is
    [request.files.get('file')] and holds [file.filename]. *)
Definition check_upload (file : option string) : verdict :=
  match file with
  | None => NoFileFound
  | Some filename =>
      if String.eqb filename "" then NoFileSelected
      else if negb (ends_with ".pdf" (lower filename)) then OnlyPdfSupported
      else if negb (allowed_file filename) then InvalidFileType
      else Accepted
  end.

End Upload.

(** ** What a pattern takes from the input *)

Module ReView.
Import Str Re.

(** Every character of [s] is in the class [q]. *)
Fixpoint all_chars (q : ascii → bool) (s : string) : bool :=
  match s with
  | EmptyString => true
  | String c s' => q c && all_chars q s'
  end.

Definition no_space (c : ascii) : bool := negb (is_space c).

(** [splits q a]: when [a] followed by [k] matches [s], the pattern [a]
    took a prefix [g] of [s] made of characters of [q], [k] matched what
    is left, and [a] matches [g] again in front of any text on which the
    rest of a pattern matches. *)
Definition splits (q : ascii → bool) (a : rx) : Prop :=
  ∀ k s r,
    a k s = Some r →
    ∃ g rest,
      s = g +:+ rest ∧ k rest = Some r ∧ all_chars q g = true
      ∧ ∀ k' t, is_Some (k' t) → is_Some (a k' (g +:+ t)).

End ReView.

(** * Properties *)

(** ** Matching survives more input

    A pattern without [$] that matches in [s] still matches, at the same
    place or earlier, when text is appended to [s]. *)

Module ReFacts.
Import Str Re.

Lemma ext_cls p : ext (cls p).
Proof.
  intros k k' Hk [|c s] t; simpl.
  - by intros [? ?].
  - destruct (p c); [apply Hk | by intros [? ?]].
Qed.

Lemma ext_lit w : ext (lit w).
Proof.
  induction w as [|a w IH]; intros k k' Hk s t; simpl.
  - apply Hk.
  - destruct s as [|c s]; simpl; [by intros [? ?]|].
    destruct (Ascii.eqb a c); [by apply IH | by intros [? ?]].
Qed.

Lemma ext_seq a b : ext a → ext b → ext (seq a b).
Proof. intros Ha Hb k k' Hk. apply Ha, Hb, Hk. Qed.

Lemma ext_alt a b : ext a → ext b → ext (alt a b).
Proof.
  intros Ha Hb k k' Hk s t. unfold alt.
  destruct (a k s) eqn:E.
  - intros _. destruct (Ha k k' Hk s t) as [r Hr]; [by rewrite E|].
    by rewrite Hr.
  - intros Hs. destruct (a k' (s +:+ t)); [done|]. by apply (Hb k k' Hk).
Qed.

Lemma ext_alts l : Forall ext l → ext (alts l).
Proof.
  induction 1 as [|a l Ha _ IH]; simpl.
  - intros k k' _ s t [? ?]. done.
  - by apply ext_alt.
Qed.

Lemma ext_many1 p : ext (many1 p).
Proof.
  intros k k' Hk s. induction s as [|c s IH]; intros t; simpl.
  - by intros [? ?].
  - destruct (p c); [|by intros [? ?]].
    destruct (many1 p k s) eqn:E.
    + intros _. destruct (IH t) as [r Hr]; [by eexists|]. by rewrite Hr.
    + intros Hs. destruct (many1 p k' (s +:+ t)); [done|]. by apply Hk.
Qed.

Lemma ext_id : ext (λ k, k).
Proof. intros k k' Hk. exact Hk. Qed.

Lemma ext_opt a : ext a → ext (opt a).
Proof. intros Ha. apply ext_alt; [done | apply ext_id]. Qed.

Lemma ext_rep n a : ext a → ext (rep n a).
Proof.
  intros Ha. induction n as [|n IH]; simpl; [apply ext_id | by apply ext_seq].
Qed.

Lemma ext_group a : ext a → ext (group a).
Proof.
  intros Ha k k' Hk s t. unfold group. intros Hs.
  eapply (Ha _ _); [|exact Hs].
  intros s1 t1. simpl. destruct (k s1) as [[g e]|] eqn:E; [|by intros [? ?]].
  intros _. destruct (Hk s1 t1) as [[g' e'] Hr]; [by rewrite E|].
  by rewrite Hr.
Qed.

Lemma extends_accept : extends accept accept.
Proof. intros s t _. by eexists. Qed.

Lemma search_from_here pat b s :
  is_Some (match_here pat b s) → is_Some (search_from pat b s).
Proof. destruct s; simpl; by destruct (match_here pat b _). Qed.

Lemma match_here_app (pat : pattern) b s t :
  ext (pat b) → is_Some (match_here pat b s) → is_Some (match_here pat b (s +:+ t)).
Proof. intros Hpat. apply (Hpat _ _ extends_accept). Qed.

(** [re.search] on a longer text. *)
Lemma search_from_app (pat : pattern) :
  (∀ b, ext (pat b)) →
  ∀ s t b, is_Some (search_from pat b s) → is_Some (search_from pat b (s +:+ t)).
Proof.
  intros Hpat s t. induction s as [|c s IH]; intros b Hs.
  - apply search_from_here, (match_here_app pat b ""); [done|].
    simpl in Hs. by destruct (match_here pat b "").
  - simpl in Hs. destruct (match_here pat b (String c s)) eqn:E.
    + apply search_from_here, match_here_app; [done | by rewrite E].
    + simpl. destruct (match_here pat b (String c (s +:+ t))); [done|].
      by apply IH.
Qed.

End ReFacts.

(** ** The statement parser *)

Module ParserFacts.
Import Str Re ReFacts Parser.

Lemma ext_date_pattern b : ext (date_pattern b).
Proof.
  unfold date_pattern, digit.
  apply ext_group.
  apply ext_seq; [apply ext_cls|].
  apply ext_seq; [apply ext_opt, ext_cls|].
  apply ext_seq; [apply ext_many1|].
  apply ext_seq; [|apply ext_seq; [apply ext_many1 | apply (ext_rep 4), ext_cls]].
  apply ext_alts. unfold months.
  repeat (apply Forall_cons; split; [apply ext_lit|]). apply Forall_nil_2.
Qed.

Lemma append_empty_r (w : string) : w +:+ "" = w.
Proof.
  induction w as [|c w IH]; [done|].
  change (String c w +:+ "") with (String c (w +:+ "")). by rewrite IH.
Qed.

Lemma join_cons sep w ws : ∃ tail, join sep (w :: ws) = w +:+ tail.
Proof.
  destruct ws as [|w' ws]; simpl.
  - exists EmptyString. by rewrite append_empty_r.
  - by eexists.
Qed.

(** A block whose first line holds a date still holds one once its lines
    are joined. *)
Lemma search_date_join first rest :
  is_Some (search date_pattern first) →
  is_Some (search date_pattern (join " " (first :: rest))).
Proof.
  intros Hs. destruct (join_cons " " first rest) as [tail ->].
  by apply search_from_app; [apply ext_date_pattern|].
Qed.

(** *** The block builder on the amounts that the scan returns *)

Lemma classify_none full_text :
  amounts_of full_text = [] → classify full_text = (0%Q, 0%Q, 0%Q).
Proof. unfold classify. by intros ->. Qed.

Lemma classify_one full_text b :
  amounts_of full_text = [b] → classify full_text = (0%Q, 0%Q, b).
Proof. unfold classify. by intros ->. Qed.

Lemma classify_many full_text pre a b :
  amounts_of full_text = (pre ++ [a; b])%list →
  classify full_text =
    if is_debit full_text then (a, 0%Q, b) else (0%Q, a, b).
Proof.
  unfold classify. intros ->.
  by rewrite reverse_app.
Qed.

(** Whatever the block, the builder leaves one of debit and credit at 0. *)
Lemma classify_exclusive full_text d c b :
  classify full_text = (d, c, b) → d = 0%Q ∨ c = 0%Q.
Proof.
  unfold classify.
  destruct (reverse (amounts_of full_text)) as [|x [|y l]];
    [| |destruct (is_debit _)]; intros [= <- <- <-]; auto.
Qed.

(** *** What the loop keeps true *)

Lemma inv_init : inv init.
Proof. split; simpl; done. Qed.

Lemma dated_block_snoc row line :
  row ≠ [] → dated_block row → dated_block (row ++ [line]).
Proof. by destruct row. Qed.

Lemma no_amount_row_in_loop row d : no_amount (row_in_loop row d).
Proof. unfold row_in_loop. by destruct (classify _) as [[? ?] ?]. Qed.

Lemma inv_step st line : inv st → inv (step st line).
Proof.
  intros Hinv. destruct Hinv as [Hrows Hopen Hinside Hdated]. unfold step.
  destruct (negb (header_found st) && _); [by split|].
  destruct (negb (header_found st)); [by split|].
  destruct (is_blank line || _); [by split|].
  destruct (search date_pattern line) as [[d e]|] eqn:Hd.
  - split; simpl; [|done|done|by rewrite Hd].
    destruct (current_row st); [done|].
    apply Forall_app; split; [done|].
    apply Forall_cons; split; [apply no_amount_row_in_loop | apply Forall_nil_2].
  - destruct (inside_table st && _) eqn:Hin; [|by split].
    apply andb_prop in Hin as [Hin _].
    split; simpl; [done| | |].
    + by destruct (current_row st).
    + by destruct (current_row st).
    + apply dated_block_snoc; auto.
Qed.

Lemma inv_run lines : inv (run lines).
Proof.
  unfold run. generalize inv_init. generalize init.
  induction lines as [|line lines IH]; intros st Hst; simpl; [done|].
  by apply IH, inv_step.
Qed.

(** Every row returned has debit or credit at 0. *)
Lemma exclusive_row_in_loop row d : exclusive (row_in_loop row d).
Proof.
  unfold row_in_loop. destruct (classify _) as [[x c] b] eqn:E.
  exact (classify_exclusive _ _ _ _ E).
Qed.

Lemma exclusive_row_at_end row t : row_at_end row = Some t → exclusive t.
Proof.
  unfold row_at_end. destruct (classify _) as [[x c] b] eqn:E.
  destruct (search _ _) as [[ds e]|]; [|done]. intros [= <-].
  exact (classify_exclusive _ _ _ _ E).
Qed.

Lemma exclusive_step st line :
  Forall exclusive (transactions st) → Forall exclusive (transactions (step st line)).
Proof.
  intros Hst. unfold step.
  destruct (negb (header_found st) && _); [done|].
  destruct (negb (header_found st)); [done|].
  destruct (is_blank line || _); [done|].
  destruct (search date_pattern line) as [[d e]|].
  - simpl. destruct (current_row st); [done|].
    apply Forall_app; split; [done|].
    apply Forall_cons; split; [apply exclusive_row_in_loop | apply Forall_nil_2].
  - by destruct (inside_table st && _).
Qed.

Lemma rows_exclusive text : Forall exclusive (parse_transactions text).
Proof.
  unfold parse_transactions, finish, run.
  assert (Forall exclusive (transactions init)) as Hinit by by constructor.
  revert Hinit. generalize init.
  induction (split nl text) as [|line lines IH]; intros st Hst; simpl.
  - destruct (current_row st); [done|].
    destruct (row_at_end _) as [t|] eqn:E; [|done].
    apply Forall_app; split; [done|].
    apply Forall_cons; split; [by apply exclusive_row_at_end in E | apply Forall_nil_2].
  - by apply IH, exclusive_step.
Qed.

(** The row built after the loop: its block always holds a date, so the
    row is always appended, and it carries ['amount']. *)
Lemma row_at_end_dated row :
  row ≠ [] → dated_block row →
  ∃ t, row_at_end row = Some t ∧
       amount t = Some (if Qlt_le_dec 0%Q (debit t) then (- debit t)%Q else credit t).
Proof.
  destruct row as [|first rest]; [done|]. intros _ Hd.
  apply (search_date_join first rest) in Hd as [[ds e] Hs].
  unfold row_at_end. rewrite Hs.
  destruct (classify _) as [[d c] b]. by eexists.
Qed.

(** The row built after the loop is dated from the text of its own
    block. *)
Lemma last_row_dated_by_own_block row t :
  row_at_end row = Some t →
  ∃ rest, search date_pattern (join " " row) = Some (date t, rest).
Proof.
  unfold row_at_end. destruct (classify _) as [[d c] b].
  destruct (search _ _) as [[ds e]|]; [|done]. intros [= <-]. by eexists.
Qed.

(** A dated line that arrives while a block is open closes that block,
    and the row of the closed block is given the date of the arriving
    line. *)
Lemma closed_block_takes_next_date st line d e :
  header_found st = true →
  is_blank line || contains "Txn Date" line = false →
  search date_pattern line = Some (d, e) →
  current_row st ≠ [] →
  transactions (step st line)
    = (transactions st ++ [row_in_loop (current_row st) d])%list
  ∧ date (row_in_loop (current_row st) d) = d.
Proof.
  intros Hh Hb Hs Hrow. unfold step. rewrite Hh, Hb, Hs. simpl. split.
  - by destruct (current_row st).
  - unfold row_in_loop. by destruct (classify _) as [[? ?] ?].
Qed.

(** *** Text without a newline has one line *)

Lemma split_without_sep sep s : mentions sep s = false → split sep s = [s].
Proof.
  induction s as [|a s IH]; simpl; [done|].
  intros [Ha Hs]%orb_false_elim. rewrite Ha. by rewrite (IH Hs).
Qed.

Lemma first_line_without_newline s : mentions nl s = false → first_line s = s.
Proof. intros Hs. unfold first_line. by rewrite split_without_sep. Qed.

Lemma mentions_append c a b : mentions c (a +:+ b) = mentions c a || mentions c b.
Proof.
  induction a as [|x a IH]; [done|].
  change (String x a +:+ b) with (String x (a +:+ b)). simpl.
  by rewrite IH, orb_assoc.
Qed.

Lemma mentions_join c sep row :
  mentions c sep = false → Forall (λ w, mentions c w = false) row →
  mentions c (join sep row) = false.
Proof.
  intros Hsep. induction 1 as [|w row Hw Hrow IH]; [done|].
  destruct row as [|w' row]; [done|].
  change (join sep (w :: w' :: row)) with (w +:+ sep +:+ join sep (w' :: row)).
  by rewrite !mentions_append, Hw, Hsep, IH.
Qed.

Lemma split_parts_without_sep sep s :
  Forall (λ w, mentions sep w = false) (split sep s).
Proof.
  induction s as [|a s IH]; simpl; [by repeat constructor|].
  destruct (Ascii.eqb a sep) eqn:Ha; [by constructor|].
  destruct (split sep s) as [|w ws]; [by repeat constructor; simpl; rewrite Ha|].
  apply Forall_cons in IH as [Hw Hws]. constructor; [|done].
  simpl. by rewrite Ha.
Qed.

(** Both builders describe a block by its whole joined text: the lines
    of a block come from [text.split("\n")], so the joined text holds no
    newline to cut at. *)
Lemma description_is_joined_text row d :
  Forall (λ w, mentions nl w = false) row →
  description (row_in_loop row d) = join " " row
  ∧ ∀ t, row_at_end row = Some t → description t = join " " row.
Proof.
  intros Hrow.
  assert (first_line (join " " row) = join " " row) as Hfl
    by by apply first_line_without_newline, mentions_join.
  split.
  - unfold row_in_loop. by destruct (classify _) as [[? ?] ?].
  - intros t. unfold row_at_end.
    destruct (classify _) as [[? ?] ?].
    destruct (search _ _) as [[? ?]|]; [|done]. by intros [= <-].
Qed.

(** *** The claims about the parser *)

(** C1.  A block whose text holds two amounts, each with white space or
    an end of the text on both sides, should give balance = the last
    amount and credit = the one before when no debit word occurs.  On the
    block ["17 Sep 2024 NEFT 1,000.00 5,000.00"] the scan of the code
    returns the first amount only: its match takes the space that follows
    it, and the pattern then finds no white space in front of the second
    amount.  The row gets balance 1000.00 in place of 5000.00, and credit
    0 in place of 1000.00. *)
Theorem adjacent_amounts_lose_the_balance :
  let line := "17 Sep 2024 NEFT 1,000.00 5,000.00" in
  spec_amounts line = ["1,000.00"; "5,000.00"]
  ∧ findall amount_pattern line = ["1,000.00"]
  ∧ parse_transactions (statement [line]) =
      [ {| date := "17 Sep 2024"; debit := 0; credit := 0;
           balance := 100000 # 100; amount := Some 0%Q;
           description := line |} ].
Proof. vm_compute. done. Qed.

(** C2.  A row should carry the date found on the first line of its own
    block.  The row of a block closed inside the loop instead carries the
    date of the line that closed it, the first line of the next block:
    here the row of the block of 1 Jan 2024 is dated 2 Feb 2024. *)
Theorem closed_block_dated_by_next_block :
  let first := "1 Jan 2024 SALARY 10.00  20.00" in
  let second := "2 Feb 2024 RENT PAID TO A 5.00  15.00" in
  search date_pattern first = Some ("1 Jan 2024", " SALARY 10.00  20.00")
  ∧ parse_transactions (statement [first; second]) =
      [ {| date := "2 Feb 2024"; debit := 0; credit := 1000 # 100;
           balance := 2000 # 100; amount := None; description := first |};
        {| date := "2 Feb 2024"; debit := 500 # 100; credit := 0;
           balance := 1500 # 100; amount := Some (- (500 # 100))%Q;
           description := second |} ].
Proof. vm_compute. done. Qed.

(** C7.  The description of a row should be the first line of its block.
    For a block of several lines both builders give the whole block,
    joined with spaces: [full_text.split("\n")[0]] cuts at a newline, and
    the joined text has none. *)
Theorem description_holds_whole_block :
  let a1 := "1 Jan 2024 UPI/123" in
  let a2 := "GROCERY STORE 10.00  20.00" in
  let b1 := "2 Feb 2024 NEFT/456" in
  let b2 := "SALARY 5.00  25.00" in
  (description <$> parse_transactions (statement [a1; a2; b1; b2])) =
    [ "1 Jan 2024 UPI/123 GROCERY STORE 10.00  20.00";
      "2 Feb 2024 NEFT/456 SALARY 5.00  25.00" ]
  ∧ (description <$> parse_transactions (statement [a1; a2; b1; b2])) ≠ [a1; b1].
Proof. vm_compute. split; [done|]. intros [=]. Qed.

(** C10.  The rows returned are the rows closed inside the loop, none of
    which has the key ['amount'], followed, when any block was opened, by
    the row built after the loop, which has it: [-debit] when
    [debit > 0], [credit] otherwise.  A statement of two blocks returns
    one row of each kind. *)
Theorem amount_key_only_on_last_row :
  (∀ text : string,
     let mid := transactions (run (split nl text)) in
     Forall (λ t, amount t = None) mid
     ∧ (mid = [] ∧ parse_transactions text = []
        ∨ ∃ t, parse_transactions text = (mid ++ [t])%list
               ∧ amount t =
                   Some (if Qlt_le_dec 0%Q (debit t) then (- debit t)%Q else credit t)))
  ∧ (∃ (text : string) (t u : Transaction),
       parse_transactions text = [t; u] ∧ amount t = None ∧ is_Some (amount u)).
Proof.
  split.
  - intros text mid. subst mid. unfold parse_transactions, finish.
    destruct (inv_run (split nl text)) as [Hrows Hopen _ Hdated].
    split; [exact Hrows|].
    destruct (current_row _) as [|first rest] eqn:Hrow.
    + left. by rewrite Hopen.
    + right. destruct (row_at_end_dated (first :: rest)) as (t & -> & Ht); [done..|].
      by exists t.
  - exists (statement ["1 Jan 2024 SALARY 10.00  20.00"; "2 Feb 2024 RENT 5.00  15.00"]).
    eexists _, _. vm_compute. repeat split; by eexists.
Qed.

End ParserFacts.

(** ** The balance timeline *)

Module AnalyticsFacts.
Import Calendar Analytics.
Local Open Scope Z_scope.

(** *** The stable sort *)

Lemma on_day_insert d t l : on_day d (insert_by_date t l) = on_day d (t :: l).
Proof.
  unfold on_day. induction l as [|u l IH]; simpl; [done|].
  destruct (Z.leb_spec (date t) (date u)) as [Hle|Hlt]; [done|].
  rewrite (filter_cons _ u), IH, !filter_cons.
  repeat case_decide; try done; lia.
Qed.

(** Sorting keeps the rows of a day in the order of the document. *)
Lemma on_day_sorted d l : on_day d (sorted l) = on_day d l.
Proof.
  induction l as [|t l IH]; simpl; [done|].
  rewrite on_day_insert. unfold on_day in *. by rewrite !filter_cons, IH.
Qed.

Lemma head_insert t l :
  head (insert_by_date t l) =
    match head l with
    | Some u => if date t <=? date u then Some t else Some u
    | None => Some t
    end.
Proof. destruct l as [|u l]; simpl; [done|]. by destruct (date t <=? date u). Qed.

(** The head of the sorted rows is the first row of the document among
    those of the earliest day. *)
Lemma head_sorted l :
  l ≠ [] →
  ∃ t0, head (sorted l) = Some t0 ∧ t0 ∈ l
        ∧ (∀ t, t ∈ l → date t0 ≤ date t)
        ∧ head (on_day (date t0) l) = Some t0.
Proof.
  induction l as [|a l IH]; [done|]. intros _. simpl.
  rewrite head_insert. unfold on_day in *.
  destruct l as [|b l].
  - exists a. simpl. rewrite filter_cons. case_decide; [|done].
    split_and!; [done|by left| |done].
    by intros t ->%list_elem_of_singleton.
  - destruct IH as (t0 & -> & Hin & Hmin & Hfirst); [done|].
    destruct (Z.leb_spec (date a) (date t0)) as [Hle|Hlt].
    + exists a. rewrite filter_cons. case_decide; [|done].
      split_and!; [done|by left| |done].
      intros t [->|Ht]%elem_of_cons; [lia|]. specialize (Hmin t Ht). lia.
    + exists t0. rewrite filter_cons. case_decide; [lia|].
      split_and!; [done|by right| |done].
      intros t [->|Ht]%elem_of_cons; [lia|]. by apply Hmin.
Qed.

(** *** The loop over the days *)

Section Loop.

Variable sorted_trans : list Txn.
Variable end_date : Z.


Lemma carry_succ current_balance current_date k :
  carry sorted_trans current_balance current_date (S k) =
    balance_after sorted_trans (carry sorted_trans current_balance current_date k)
      (current_date + Z.of_nat (S k)).
Proof.
  revert current_balance current_date.
  induction k as [|k IH]; intros bal cur.
  - done.
  - change (carry sorted_trans bal cur (S (S k)))
      with (carry sorted_trans (balance_after sorted_trans bal cur) (cur + 1) (S k)).
    rewrite IH. change (carry sorted_trans (balance_after sorted_trans bal cur) (cur + 1) k)
      with (carry sorted_trans bal cur (S k)).
    f_equal. lia.
Qed.

Lemma days_loop_lookup n current_date current_balance daily d :
  n = Z.to_nat (end_date + 1 - current_date) →
  days_loop n sorted_trans end_date current_date current_balance daily !! d =
    if decide (current_date ≤ d ≤ end_date)
    then Some (carry sorted_trans current_balance current_date (Z.to_nat (d - current_date)))
    else daily !! d.
Proof.
  revert current_date current_balance daily.
  induction n as [|n IH]; intros cur bal m Hn; simpl.
  - case_decide; [lia|done].
  - destruct (Z.leb_spec cur end_date) as [Hle|Hgt]; [|lia].
    rewrite IH by lia.
    destruct (decide (d = cur)) as [->|Hne].
    + rewrite decide_False by lia. rewrite decide_True by lia.
      rewrite lookup_insert_eq, Z.sub_diag. done.
    + rewrite lookup_insert_ne by done.
      repeat case_decide; try done; try lia.
      replace (Z.to_nat (d - cur)) with (S (Z.to_nat (d - (cur + 1)))) by lia.
      done.
Qed.


End Loop.

(** *** [calculate_daily_balances] on a list with rows *)

Lemma daily_balances_ok l s e :
  l ≠ [] →
  ∃ t0, head (sorted l) = Some t0
        ∧ calculate_daily_balances l s e =
            Ok (while_days (sorted l) e s (balance t0) {[s := balance t0]}).
Proof.
  intros Hl. destruct (head_sorted l Hl) as (t0 & Hhd & _).
  exists t0. split; [done|]. unfold calculate_daily_balances.
  by destruct (sorted l) as [|t rest]; simplify_eq/=.
Qed.

Lemma timeline_lookup sl s e seed d :
  s ≤ e →
  while_days sl e s seed {[s := seed]} !! d =
    if decide (s ≤ d ≤ e) then Some (carry sl seed s (Z.to_nat (d - s))) else None.
Proof.
  intros Hse. unfold while_days. rewrite days_loop_lookup by done.
  case_decide; [done|]. apply lookup_singleton_ne. lia.
Qed.


(** The value of a day, from the rows of the document: the last row of
    the day, else the seed on the first day, else the value of the day
    before. *)
Lemma timeline_day l sl s e seed d :
  (∀ d, on_day d sl = on_day d l) → s ≤ d ≤ e →
  let m := while_days sl e s seed {[s := seed]} in
  match last (on_day d l) with
  | Some t => m !! d = Some (balance t)
  | None => if decide (d = s) then m !! d = Some seed else m !! d = m !! (d - 1)
  end.
Proof.
  intros Hsl Hd m. subst m. rewrite !timeline_lookup by lia.
  rewrite decide_True by lia.
  destruct (decide (d = s)) as [->|Hne].
  - rewrite Z.sub_diag. simpl. unfold balance_after. rewrite Hsl.
    by destruct (last _).
  - rewrite decide_True by lia.
    replace (Z.to_nat (d - s)) with (S (Z.to_nat (d - 1 - s))) by lia.
    rewrite carry_succ.
    replace (s + Z.of_nat (S (Z.to_nat (d - 1 - s)))) with d by lia.
    unfold balance_after. rewrite Hsl.
    by destruct (last _).
Qed.

(** *** The claims about the timeline *)





(** C8.  Without rows there is no balance to start from:
    [sorted_trans[0]] raises, whatever the dates, and no map is
    returned. *)
Theorem empty_timeline_raises (s e : Z) :
  calculate_daily_balances [] s e = Raise IndexError.
Proof. reflexivity. Qed.

(** ** The monthly statistics *)










(** *** The claims about the monthly statistics *)

(** C9.  Without rows the aggregator returns the empty mapping; nothing
    is raised. *)
Theorem empty_statistics (round : Q → nat → Q) :
  calculate_monthly_statistics round [] = Ok ∅.
Proof. reflexivity. Qed.



(** Rows on 2 and 5 January: the average is taken over the 4 days from
    the 2nd to the 5th, not over the 31 days of January. *)
Example january_rows_span_four_days :
  match calculate_monthly_statistics (λ q _, q)
          [mkTxn (toordinal 2024 1 2) 100; mkTxn (toordinal 2024 1 5) 300] with
  | Ok res => (λ st, (days_maintained st, avg_balance st)) <$> res !! (2024, 1)
  | Raise _ => None
  end = Some (4%nat, (600 # 4)%Q).
Proof. by vm_compute. Qed.

End AnalyticsFacts.

(** ** The maintenance analysis *)

Module MaintenanceFacts.
Import Calendar Analytics Maintenance.
Local Open Scope Q_scope.


Lemma qlt_false a b : qlt a b = false ↔ b <= a.
Proof. unfold qlt. by rewrite negb_false_iff, Qle_bool_iff. Qed.


Lemma advise_maintained avg tgt pct :
  ¬ tgt == 0 → tgt <= avg →
  advise avg tgt pct =
    (TargetMaintained pct,
     if qlt (tgt * 1.5) avg then InvestExcess avg (avg - tgt)
     else MeetingTarget avg tgt).
Proof.
  intros Ht Hle%Qle_bool_iff. unfold advise. rewrite Hle.
  destruct (Qeq_bool tgt 0) eqn:E; [|done]. by apply Qeq_bool_iff in E.
Qed.

Lemma advise_below avg tgt pct :
  ¬ tgt == 0 → avg < tgt →
  advise avg tgt pct =
    (BelowTarget pct,
     DepositMonthly tgt (qmax tgt (avg + (tgt - avg) / 3)) ((tgt - avg) / 3)).
Proof.
  intros Ht Hlt. unfold advise.
  destruct (Qeq_bool tgt 0) eqn:E; [by apply Qeq_bool_iff in E|].
  destruct (Qle_bool tgt avg) eqn:E'; [|done].
  apply Qle_bool_iff in E'. by apply Qlt_not_le in Hlt.
Qed.



(** The three outcomes, on an average of 12000: a target of 10000 is
    maintained and acknowledged (12000 is not above 15000), a target of
    6000 is maintained with 6000 to invest, and a target of 15000 is
    missed by 3000, to be made up by 1000 a month. *)
Example maintenance_outcomes :
  let l := [mkTxn (toordinal 2024 1 2) 11000; mkTxn (toordinal 2024 1 5) 13000] in
  let advice target :=
    match analyze_balance_maintenance (λ q _, Qred q) l (Some target) with
    | Full r => Some (recommendation r)
    | NoData _ _ _ => None
    end in
  advice 10000 = Some (MeetingTarget (24000 # 2) 10000)
  ∧ advice 6000 = Some (InvestExcess (24000 # 2) (12000 # 2))
  ∧ advice 15000 = Some (DepositMonthly 15000 15000 (6000 # 6)).
Proof. by vm_compute. Qed.


End MaintenanceFacts.

(** ** More on the statement parser *)

Module ParserExtras.
Import Str Re ReFacts Parser ParserView ParserFacts.

Lemma step_before_header line :
  step init line = if is_header line then seen_header else init.
Proof.
  unfold step, is_header. change (header_found init) with false.
  cbn [negb andb].
  by destruct (forallb (λ x : string, contains x line) header_words).
Qed.

Lemma run_without_header lines :
  Forall (λ line, is_header line = false) lines → run lines = init.
Proof.
  unfold run. induction 1 as [|line lines Hl _ IH]; simpl; [done|].
  by rewrite step_before_header, Hl.
Qed.

(** The loop depends on the lines after the first header line only. *)
Lemma run_after_header lines :
  run lines =
    if existsb is_header lines then foldl step seen_header (after_header lines)
    else init.
Proof.
  unfold run. induction lines as [|line lines IH]; simpl; [done|].
  rewrite step_before_header. by destruct (is_header line).
Qed.

Lemma inv_foldl lines st : inv st → inv (foldl step st lines).
Proof.
  revert st. induction lines as [|line lines IH]; intros st Hst; simpl; [done|].
  by apply IH, inv_step.
Qed.

Lemma inv_seen_header : inv seen_header.
Proof. split; simpl; done. Qed.

Lemma header_found_step st line :
  header_found st = true → header_found (step st line) = true.
Proof.
  intros Hh. unfold step. rewrite Hh. simpl.
  destruct (is_blank line || _); [done|].
  destruct (search date_pattern line) as [[d e]|]; [done|].
  by destruct (inside_table st && _).
Qed.

Lemma step_skipped st line :
  header_found st = true → skipped line = true → step st line = st.
Proof. intros Hh Hs. unfold step. unfold skipped in Hs. by rewrite Hh, Hs. Qed.

Lemma step_counts st line :
  header_found st = true → inv st →
  rows_so_far (step st line) =
    rows_so_far st + (if opens_block line then 1 else 0).
Proof.
  intros Hh Hinv. unfold step, opens_block, skipped, rows_so_far.
  rewrite Hh. simpl.
  destruct (is_blank line || _); simpl; [lia|].
  destruct (search date_pattern line) as [[d e]|] eqn:Hs.
  - rewrite bool_decide_eq_true_2 by by eexists. simpl.
    destruct (current_row st); simpl; [lia|]. rewrite length_app. simpl. lia.
  - rewrite bool_decide_eq_false_2 by by intros [? ?].
    destruct (inside_table st && _) eqn:Hin; [|lia]. simpl.
    apply andb_prop in Hin as [Hin _].
    pose proof (inv_inside _ Hinv Hin).
    destruct (current_row st); [done|]. simpl. lia.
Qed.

Lemma foldl_counts lines st :
  header_found st = true → inv st →
  rows_so_far (foldl step st lines) =
    rows_so_far st + List.length (filter (λ l, opens_block l = true) lines).
Proof.
  revert st. induction lines as [|line lines IH]; intros st Hh Hinv; simpl; [lia|].
  rewrite IH by (by apply header_found_step || by apply inv_step).
  rewrite step_counts, filter_cons by done.
  case_decide as Ho.
  - rewrite Ho. simpl. lia.
  - destruct (opens_block line); [done|]. lia.
Qed.

Lemma finish_counts st : inv st → List.length (finish st) = rows_so_far st.
Proof.
  intros Hinv. unfold finish, rows_so_far.
  destruct (current_row st) as [|first rest] eqn:Hrow; [lia|].
  destruct (row_at_end_dated (first :: rest)) as (t & -> & _); [done| |].
  - pose proof (inv_dated _ Hinv) as Hd. by rewrite Hrow in Hd.
  - rewrite length_app. simpl. lia.
Qed.

(** X1.  One row for each dated line: the rows returned are as many as
    the lines after the first header line that are not skipped (blank, or
    holding "Txn Date") and on which the date pattern matches. *)
Theorem one_row_per_dated_line (text : string) :
  List.length (parse_transactions text) =
    List.length (filter (λ line, opens_block line = true)
                   (after_header (split nl text))).
Proof.
  unfold parse_transactions. rewrite run_after_header.
  destruct (existsb is_header (split nl text)) eqn:Hh.
  - rewrite finish_counts by apply inv_foldl, inv_seen_header.
    by rewrite foldl_counts by (done || apply inv_seen_header).
  - simpl. assert (after_header (split nl text) = []) as ->; [|done].
    induction (split nl text) as [|line lines IH]; simpl in *; [done|].
    apply orb_false_elim in Hh as [-> Hh]. by apply IH.
Qed.

(** X2.  Without a header line nothing is returned: when no line of the
    text holds "Txn Date", "Date" and "Description" together, the result
    is empty, whatever else the text holds. *)
Theorem no_header_no_rows (text : string) :
  Forall (λ line, is_header line = false) (split nl text) →
  parse_transactions text = [].
Proof.
  intros Hl. unfold parse_transactions. by rewrite run_without_header.
Qed.

Lemma no_header_no_rows_witness :
  parse_transactions
    ("17 Sep 2024 NEFT 1,000.00  5,000.00" +:+ String nl "18 Sep 2024 ATM 2.00  3.00")
  = [].
Proof.
  apply no_header_no_rows. vm_compute. repeat constructor.
Defined.

(** *** Lines and text *)

Lemma split_append sep w rest :
  mentions sep w = false →
  split sep (w +:+ String sep rest) = w :: split sep rest.
Proof.
  induction w as [|a w IH]; intros Hw.
  - change ("" +:+ String sep rest) with (String sep rest). simpl.
    by rewrite Ascii.eqb_refl.
  - change (String a w +:+ String sep rest) with (String a (w +:+ String sep rest)).
    simpl in *. apply orb_false_elim in Hw as [Ha Hw].
    by rewrite Ha, (IH Hw).
Qed.

(** Splitting the joined lines gives the lines back. *)
Lemma split_unlines lines :
  Forall (λ w, mentions nl w = false) lines → lines ≠ [] →
  split nl (unlines lines) = lines.
Proof.
  unfold unlines. induction 1 as [|w lines Hw Hlines IH]; [done|]. intros _.
  destruct lines as [|w' lines]; [by apply split_without_sep|].
  change (join (String nl "") (w :: w' :: lines))
    with (w +:+ String nl "" +:+ join (String nl "") (w' :: lines)).
  change (String nl "" +:+ join (String nl "") (w' :: lines))
    with (String nl (join (String nl "") (w' :: lines))).
  rewrite split_append by done. by rewrite IH.
Qed.

Lemma header_found_foldl lines st :
  header_found st = true → header_found (foldl step st lines) = true.
Proof.
  revert st. induction lines as [|line lines IH]; intros st Hh; simpl; [done|].
  by apply IH, header_found_step.
Qed.

Lemma header_found_run lines :
  existsb is_header lines = true → header_found (run lines) = true.
Proof. intros Hh. rewrite run_after_header, Hh. by apply header_found_foldl. Qed.

(** X3.  The lines in front of the header line are discarded: a preamble
    without a header line does not change the rows. *)
Theorem preamble_is_ignored (pre lines : list string) :
  Forall (λ line, is_header line = false) pre →
  Forall (λ line, mentions nl line = false) (pre ++ lines) →
  lines ≠ [] →
  parse_transactions (unlines (pre ++ lines)) = parse_transactions (unlines lines).
Proof.
  intros Hpre Hnl Hlines. unfold parse_transactions.
  rewrite (split_unlines (pre ++ lines)) by (done || by destruct pre, lines).
  rewrite (split_unlines lines) by (done || by apply Forall_app in Hnl as [_ ?]).
  unfold run at 1. rewrite foldl_app.
  fold (run pre). by rewrite run_without_header.
Qed.

Lemma preamble_is_ignored_witness :
  parse_transactions
    (unlines (["STATE BANK"; "Account statement 17 Sep 2024 100.00  200.00"]
              ++ [header_line; "18 Sep 2024 ATM 2.00  3.00"]))
  = parse_transactions (unlines [header_line; "18 Sep 2024 ATM 2.00  3.00"]).
Proof.
  apply preamble_is_ignored; [vm_compute; repeat constructor.. | done].
Defined.

(** X4.  Past the header line, a blank line and a line holding
    "Txn Date" (a repeated header) are passed over: taking such a line out
    of the text leaves the rows as they are. *)
Theorem skipped_line_changes_nothing (before after : list string) (line : string) :
  existsb is_header before = true →
  skipped line = true →
  Forall (λ l, mentions nl l = false) (before ++ line :: after) →
  parse_transactions (unlines (before ++ line :: after))
    = parse_transactions (unlines (before ++ after)).
Proof.
  intros Hh Hs Hnl. unfold parse_transactions.
  assert (before ≠ []) as Hb by (intros ->; done).
  assert (Forall (λ l, mentions nl l = false) (before ++ after)) as Hnl'.
  { apply Forall_app in Hnl as [H1 H2]. apply Forall_cons in H2 as [_ H2].
    by apply Forall_app. }
  rewrite (split_unlines (before ++ line :: after)) by (done || by destruct before).
  rewrite (split_unlines (before ++ after)) by (done || by destruct before).
  unfold run. rewrite !foldl_app. simpl. fold (run before).
  rewrite step_skipped; [done| |done]. by apply header_found_run.
Qed.

Lemma skipped_line_changes_nothing_witness :
  parse_transactions
    (unlines ([header_line; "17 Sep 2024 NEFT 1.00  2.00"]
              ++ "Txn Date Value Date" :: ["18 Sep 2024 ATM 2.00  3.00"]))
  = parse_transactions
      (unlines ([header_line; "17 Sep 2024 NEFT 1.00  2.00"]
                ++ ["18 Sep 2024 ATM 2.00  3.00"])).
Proof.
  apply skipped_line_changes_nothing; [done | done | vm_compute; repeat constructor].
Defined.

(** *** The numbers of a row *)

Lemma digits_value_nonneg s acc : (0 ≤ acc → 0 ≤ digits_value acc s)%Z.
Proof.
  revert acc. induction s as [|c s IH]; intros acc Hacc; simpl; [done|].
  destruct (is_digit c); apply IH; lia.
Qed.

Lemma float_nonneg a : (0 <= float a)%Q.
Proof.
  unfold float.
  destruct (split "." a) as [|i [|f [|? ?]]];
    unfold Qle; simpl; rewrite ?Z.mul_1_r;
    repeat apply digits_value_nonneg; done.
Qed.

Lemma amounts_nonneg full_text : Forall (λ q, 0 <= q)%Q (amounts_of full_text).
Proof. unfold amounts_of. apply Forall_fmap, Forall_true. intros a. apply float_nonneg. Qed.

Lemma classify_nonneg full_text d c b :
  classify full_text = (d, c, b) → (0 <= d ∧ 0 <= c ∧ 0 <= b)%Q.
Proof.
  unfold classify. pose proof (amounts_nonneg full_text) as Ha.
  apply Forall_reverse in Ha.
  destruct (reverse (amounts_of full_text)) as [|x [|y l]].
  - by intros [= <- <- <-].
  - apply Forall_cons in Ha as [Hx _]. by intros [= <- <- <-].
  - apply Forall_cons in Ha as [Hx Ha]. apply Forall_cons in Ha as [Hy _].
    destruct (is_debit _); by intros [= <- <- <-].
Qed.

(** What holds of the rows of both builders holds of every row
    returned. *)
Lemma rows_from_builders (P : Transaction → Prop) :
  (∀ row d, P (row_in_loop row d)) →
  (∀ row t, row_at_end row = Some t → P t) →
  ∀ text, Forall P (parse_transactions text).
Proof.
  intros Hloop Hend text. unfold parse_transactions, finish, run.
  assert (Forall P (transactions init)) as Hinit by by constructor.
  revert Hinit. generalize init.
  induction (split nl text) as [|line lines IH]; intros st Hst; simpl.
  - destruct (current_row st); [done|].
    destruct (row_at_end _) as [t|] eqn:E; [|done].
    apply Forall_app; split; [done|].
    apply Forall_cons; split; [by apply Hend in E | apply Forall_nil_2].
  - apply IH. unfold step.
    destruct (negb (header_found st) && _); [done|].
    destruct (negb (header_found st)); [done|].
    destruct (is_blank line || _); [done|].
    destruct (search date_pattern line) as [[d e]|].
    + simpl. destruct (current_row st); [done|].
      apply Forall_app; split; [done|].
      apply Forall_cons; split; [apply Hloop | apply Forall_nil_2].
    + by destruct (inside_table st && _).
Qed.

(** X5.  No row has a negative debit, credit or balance, and no row has
    both a debit and a credit: one of the two is 0. *)
Theorem rows_nonnegative_one_sided (text : string) :
  Forall (λ t, (0 <= debit t ∧ 0 <= credit t ∧ 0 <= balance t)%Q
               ∧ (debit t = 0%Q ∨ credit t = 0%Q))
    (parse_transactions text).
Proof.
  apply rows_from_builders.
  - intros row d. unfold row_in_loop.
    destruct (classify _) as [[x c] b] eqn:E. simpl.
    split; [exact (classify_nonneg _ _ _ _ E) | exact (classify_exclusive _ _ _ _ E)].
  - intros row t. unfold row_at_end.
    destruct (classify _) as [[x c] b] eqn:E.
    destruct (search _ _) as [[ds e]|]; [|done]. intros [= <-]. simpl.
    split; [exact (classify_nonneg _ _ _ _ E) | exact (classify_exclusive _ _ _ _ E)].
Qed.

(** X6.  The last row returned has the key ['amount'], and its value is
    the net movement of the row, credit less debit. *)
Theorem last_row_amount_is_net (text : string) (t : Transaction) :
  last (parse_transactions text) = Some t →
  ∃ a, amount t = Some a ∧ (a == credit t - debit t)%Q.
Proof.
  unfold parse_transactions, finish.
  destruct (inv_run (split nl text)) as [_ Hopen _ Hdated].
  destruct (current_row _) as [|first rest] eqn:Hrow.
  - by rewrite Hopen.
  - destruct (row_at_end_dated (first :: rest)) as (u & Hu & _); [done..|].
    rewrite Hu, last_snoc. intros [= <-].
    unfold row_at_end in Hu.
    destruct (classify _) as [[d c] b] eqn:E.
    destruct (search _ _) as [[ds e]|]; [|done]. injection Hu as <-. simpl.
    eexists. split; [done|].
    destruct (classify_nonneg _ _ _ _ E) as (Hd & _ & _).
    destruct (Qlt_le_dec 0 d) as [Hpos|Hle].
    + destruct (classify_exclusive _ _ _ _ E) as [->| ->].
      * by apply Qlt_irrefl in Hpos.
      * ring.
    + assert (d == 0)%Q as -> by by apply Qle_antisym. ring.
Qed.

Lemma last_row_amount_is_net_witness :
  ∃ a, amount {| date := "18 Sep 2024"; debit := 200 # 100; credit := 0;
                 balance := 300 # 100; amount := Some (- (200 # 100))%Q;
                 description := "18 Sep 2024 PAID TO X 2.00  3.00" |} = Some a
       ∧ (a == 0 - (200 # 100))%Q.
Proof.
  apply (last_row_amount_is_net
           (unlines [header_line; "18 Sep 2024 PAID TO X 2.00  3.00"])).
  by vm_compute.
Defined.

End ParserExtras.

(** ** More on the balance timeline and the monthly statistics *)

Module AnalyticsExtras.
Import Calendar Analytics AnalyticsFacts.
Local Open Scope Z_scope.

Lemma elem_of_on_day t d l : t ∈ on_day d l → t ∈ l ∧ date t = d.
Proof. unfold on_day. by intros [? ?]%list_elem_of_filter. Qed.

Lemma last_elem_of {A} (l : list A) x : last l = Some x → x ∈ l.
Proof.
  intros Hl. apply last_Some in Hl as [l' ->]. apply elem_of_app. right. by left.
Qed.

(** A balance that the loop records is the balance it was entered with
    or the balance of a row. *)
Lemma carry_source l bal cur k :
  carry (sorted l) bal cur k = bal
  ∨ ∃ t, t ∈ l ∧ balance t = carry (sorted l) bal cur k.
Proof.
  revert bal cur. induction k as [|k IH]; intros bal cur; simpl.
  - unfold balance_after. rewrite on_day_sorted.
    destruct (last _) as [t|] eqn:E; [|by left].
    right. exists t. split; [|done].
    by apply last_elem_of, elem_of_on_day in E as [? _].
  - destruct (IH (balance_after (sorted l) bal cur) (cur + 1)) as [->|?]; [|by right].
    unfold balance_after. rewrite on_day_sorted.
    destruct (last _) as [t|] eqn:E; [|by left].
    right. exists t. split; [|done].
    by apply last_elem_of, elem_of_on_day in E as [? _].
Qed.

Lemma while_days_past_end sl s e seed (m : gmap Z Q) :
  e < s → while_days sl e s seed m = m.
Proof.
  intros Hes. unfold while_days.
  by replace (Z.to_nat (e + 1 - s)) with O by lia.
Qed.

(** X7.  Every balance of the timeline is the balance of one of the rows
    given: no value is made up. *)
Theorem timeline_values_are_row_balances
    (l : list Txn) (s e : Z) (m : gmap Z Q) (d : Z) (v : Q) :
  calculate_daily_balances l s e = Ok m →
  m !! d = Some v →
  ∃ t, t ∈ l ∧ balance t = v.
Proof.
  intros Hm Hd. destruct l as [|a l0] eqn:El; [done|]. rewrite <- El in *.
  assert (l ≠ []) as Hl by by rewrite El.
  destruct (head_sorted l Hl) as (t0 & Hhd & Hin & _).
  destruct (daily_balances_ok l s e Hl) as (t0' & Hhd' & Hcalc).
  assert (t0' = t0) as -> by congruence.
  rewrite Hcalc in Hm. injection Hm as <-.
  destruct (Z.le_gt_cases s e) as [Hse|Hes].
  - rewrite timeline_lookup in Hd by done.
    case_decide; [|done]. injection Hd as <-.
    destruct (carry_source l (balance t0) s (Z.to_nat (d - s))) as [->|?];
      [by exists t0 | done].
  - rewrite while_days_past_end in Hd by lia.
    apply lookup_singleton_Some in Hd as [_ <-]. by exists t0.
Qed.

Lemma timeline_values_are_row_balances_witness :
  ∃ t, t ∈ [mkTxn 5 300; mkTxn 2 100] ∧ balance t = 100%Q.
Proof.
  eapply (timeline_values_are_row_balances [mkTxn 5 300; mkTxn 2 100] 1 6 _ 3);
    [reflexivity | by vm_compute].
Defined.

(** X8.  When the end day is before the start day the loop does not run,
    and the timeline still has one entry: the start day, with the balance
    of the chronologically first row. *)
Theorem timeline_of_empty_range (l : list Txn) (s e : Z) :
  l ≠ [] → e < s →
  ∃ t0, t0 ∈ l ∧ (∀ t, t ∈ l → date t0 ≤ date t)
        ∧ calculate_daily_balances l s e = Ok {[s := balance t0]}.
Proof.
  intros Hl Hes.
  destruct (head_sorted l Hl) as (t0 & Hhd & Hin & Hmin & _).
  destruct (daily_balances_ok l s e Hl) as (t0' & Hhd' & ->).
  assert (t0' = t0) as -> by congruence.
  exists t0. split_and!; [done..|]. by rewrite while_days_past_end.
Qed.

Lemma timeline_of_empty_range_witness :
  ∃ t0, t0 ∈ [mkTxn 5 300; mkTxn 2 100]
        ∧ (∀ t, t ∈ [mkTxn 5 300; mkTxn 2 100] → date t0 ≤ date t)
        ∧ calculate_daily_balances [mkTxn 5 300; mkTxn 2 100] 9 4
            = Ok {[9 := balance t0]}.
Proof. apply timeline_of_empty_range; [done | lia]. Defined.

Lemma days_loop_ext sl1 sl2 n e cur bal (m : gmap Z Q) :
  (∀ b d, balance_after sl1 b d = balance_after sl2 b d) →
  days_loop n sl1 e cur bal m = days_loop n sl2 e cur bal m.
Proof.
  intros Hsl. revert cur bal m.
  induction n as [|n IH]; intros cur bal m; simpl; [done|].
  destruct (cur <=? e); [|done]. by rewrite Hsl, IH.
Qed.

Lemma same_days_nil l : (∀ d, on_day d [] = on_day d l) → l = [].
Proof.
  intros Hd. destruct l as [|t l]; [done|].
  specialize (Hd (date t)). unfold on_day in Hd.
  rewrite filter_cons, decide_True in Hd by done. done.
Qed.

(** X9.  The timeline depends on the rows of each day and on their order
    within the day, not on the order of the days in the list: two lists
    with the same rows, day by day, give the same result (the function
    sorts by day itself, and the sort is stable). *)
Theorem timeline_ignores_order_of_days (l1 l2 : list Txn) (s e : Z) :
  (∀ d, on_day d l1 = on_day d l2) →
  calculate_daily_balances l1 s e = calculate_daily_balances l2 s e.
Proof.
  intros Hd.
  destruct (decide (l1 = [])) as [->|H1].
  { by rewrite (same_days_nil l2 Hd). }
  destruct (decide (l2 = [])) as [->|H2].
  { by rewrite (same_days_nil l1 (λ d, eq_sym (Hd d))). }
  destruct (head_sorted l1 H1) as (t1 & Hh1 & Hin1 & Hmin1 & Hf1).
  destruct (head_sorted l2 H2) as (t2 & Hh2 & Hin2 & Hmin2 & Hf2).
  destruct (daily_balances_ok l1 s e H1) as (t1' & Hh1' & ->).
  destruct (daily_balances_ok l2 s e H2) as (t2' & Hh2' & ->).
  assert (t1' = t1) as -> by congruence.
  assert (t2' = t2) as -> by congruence.
  assert (t1 ∈ l2) as Hin12.
  { assert (t1 ∈ on_day (date t1) l1) as Hy by by apply head_Some_elem_of.
    rewrite Hd in Hy. by apply elem_of_on_day in Hy as [? _]. }
  assert (t2 ∈ l1) as Hin21.
  { assert (t2 ∈ on_day (date t2) l2) as Hy by by apply head_Some_elem_of.
    rewrite <- Hd in Hy. by apply elem_of_on_day in Hy as [? _]. }
  assert (date t1 = date t2) as Hdate.
  { specialize (Hmin1 t2 Hin21). specialize (Hmin2 t1 Hin12). lia. }
  assert (t1 = t2) as ->.
  { rewrite Hdate, Hd in Hf1. congruence. }
  f_equal. unfold while_days. apply days_loop_ext.
  intros b d. unfold balance_after. by rewrite !on_day_sorted, Hd.
Qed.

Lemma timeline_ignores_order_of_days_witness :
  calculate_daily_balances [mkTxn 5 300; mkTxn 2 100; mkTxn 5 400] 1 6
  = calculate_daily_balances [mkTxn 2 100; mkTxn 5 300; mkTxn 5 400] 1 6.
Proof.
  apply timeline_ignores_order_of_days.
  intros d. unfold on_day. rewrite !filter_cons, !filter_nil. simpl.
  repeat case_decide; first [done | lia].
Defined.

(** X10.  Over a run of days without rows the balance does not move: a
    day of the range has the value of any earlier day of the range when
    no row falls after that day up to it. *)
Theorem timeline_constant_over_gap (l : list Txn) (s e : Z) (m : gmap Z Q) (d0 d : Z) :
  calculate_daily_balances l s e = Ok m →
  s ≤ d0 → d0 ≤ d → d ≤ e →
  (∀ d', d0 < d' ≤ d → on_day d' l = []) →
  m !! d = m !! d0.
Proof.
  intros Hm Hs Hd He Hgap. destruct l as [|a l0] eqn:El; [done|]. rewrite <- El in *.
  assert (l ≠ []) as Hl by by rewrite El.
  destruct (daily_balances_ok l s e Hl) as (t0 & _ & Hcalc).
  rewrite Hcalc in Hm. injection Hm as <-. clear Hcalc El a l0.
  assert (∀ k : nat, d0 + Z.of_nat k ≤ d →
            while_days (sorted l) e s (balance t0) {[s := balance t0]}
              !! (d0 + Z.of_nat k)
            = while_days (sorted l) e s (balance t0) {[s := balance t0]} !! d0) as Hk.
  { induction k as [|k IH]; intros Hle.
    - by rewrite Z.add_0_r.
    - rewrite <- IH by lia.
      pose proof (timeline_day l (sorted l) s e (balance t0) (d0 + Z.of_nat (S k))
                    (λ d', on_day_sorted d' l) ltac:(lia)) as Hday.
      cbv zeta in Hday. rewrite (Hgap (d0 + Z.of_nat (S k))) in Hday by lia.
      cbn [last] in Hday.
      rewrite decide_False in Hday by lia. rewrite Hday. f_equal. lia. }
  specialize (Hk (Z.to_nat (d - d0))).
  replace (d0 + Z.of_nat (Z.to_nat (d - d0))) with d in Hk by lia. apply Hk. lia.
Qed.

Lemma timeline_constant_over_gap_witness :
  ∃ m, calculate_daily_balances [mkTxn 2 100; mkTxn 5 300] 1 6 = Ok m
       ∧ m !! 4 = m !! 2.
Proof.
  eexists. split; [reflexivity|].
  eapply (timeline_constant_over_gap [mkTxn 2 100; mkTxn 5 300] 1 6);
    [reflexivity | lia | lia | lia |].
  intros d' Hd'. unfold on_day. rewrite !filter_cons, filter_nil. simpl.
  repeat case_decide; first [done | lia].
Defined.

(** *** The least and the greatest daily balance of a month *)

Lemma qmin_le a b : (qmin a b <= a ∧ qmin a b <= b)%Q ∧ (qmin a b = a ∨ qmin a b = b).
Proof.
  unfold qmin. destruct (Qlt_le_dec b a) as [Hlt|Hle].
  - split; [split; [by apply Qlt_le_weak | apply Qle_refl] | by right].
  - split; [split; [apply Qle_refl | done] | by left].
Qed.

Lemma qmax_ge a b : (a <= qmax a b ∧ b <= qmax a b)%Q ∧ (qmax a b = a ∨ qmax a b = b).
Proof.
  unfold qmax. destruct (Qlt_le_dec a b) as [Hlt|Hle].
  - split; [split; [by apply Qlt_le_weak | apply Qle_refl] | by right].
  - split; [split; [apply Qle_refl | done] | by left].
Qed.

Lemma foldl_qmin_spec x l :
  foldl qmin x l ∈ x :: l ∧ ∀ y, y ∈ x :: l → (foldl qmin x l <= y)%Q.
Proof.
  revert x. induction l as [|a l IH]; intros x; simpl.
  - split; [by left|]. intros y ->%list_elem_of_singleton. apply Qle_refl.
  - destruct (IH (qmin x a)) as [Hin Hle].
    destruct (qmin_le x a) as [[Hx Ha] Hor]. split.
    + apply elem_of_cons in Hin as [->|Hin]; [|by do 2 right].
      destruct Hor as [-> | ->]; [by left | by right; left].
    + intros y Hy. pose proof (Hle (qmin x a) ltac:(by left)) as H0.
      apply elem_of_cons in Hy as [->|[->|Hy]%elem_of_cons].
      * by eapply Qle_trans.
      * by eapply Qle_trans.
      * apply Hle. by right.
Qed.

Lemma foldl_qmax_spec x l :
  foldl qmax x l ∈ x :: l ∧ ∀ y, y ∈ x :: l → (y <= foldl qmax x l)%Q.
Proof.
  revert x. induction l as [|a l IH]; intros x; simpl.
  - split; [by left|]. intros y ->%list_elem_of_singleton. apply Qle_refl.
  - destruct (IH (qmax x a)) as [Hin Hle].
    destruct (qmax_ge x a) as [[Hx Ha] Hor]. split.
    + apply elem_of_cons in Hin as [->|Hin]; [|by do 2 right].
      destruct Hor as [-> | ->]; [by left | by right; left].
    + intros y Hy. pose proof (Hle (qmax x a) ltac:(by left)) as H0.
      apply elem_of_cons in Hy as [->|[->|Hy]%elem_of_cons].
      * by eapply Qle_trans.
      * by eapply Qle_trans.
      * apply Hle. by right.
Qed.

Lemma month_raw_extremes mt raw :
  month_raw mt = Ok raw →
  raw_min raw ∈ values (raw_daily raw) ∧ raw_max raw ∈ values (raw_daily raw)
  ∧ ∀ v, v ∈ values (raw_daily raw) → (raw_min raw <= v <= raw_max raw)%Q.
Proof.
  unfold month_raw.
  destruct (min_date _) as [lo|]; [|done]. destruct (max_date _) as [hi|]; [|done].
  simpl. destruct (calculate_daily_balances _ _ _) as [daily|]; [|done]. simpl.
  destruct (values daily) as [|x vs] eqn:Hv; [done|]. simpl.
  intros [= <-]. simpl. rewrite Hv.
  destruct (foldl_qmin_spec x vs) as [Hmin_in Hmin].
  destruct (foldl_qmax_spec x vs) as [Hmax_in Hmax].
  split_and!; [done..|]. intros v Hin. split; [by apply Hmin | by apply Hmax].
Qed.

(** X11.  In the entry of a month, [min_balance] and [max_balance] are
    the rounded least and greatest balance of that entry's own daily
    balances: two of its values, between which all the others lie. *)
Theorem monthly_extremes_bound_daily (round : Q → nat → Q) (l : list Txn)
    (res : gmap (Z * Z) (MonthStats)) (k : Z * Z) (st : MonthStats) :
  calculate_monthly_statistics round l = Ok res →
  res !! k = Some st →
  ∃ lo hi,
    min_balance st = round lo 2%nat ∧ max_balance st = round hi 2%nat
    ∧ lo ∈ values (daily_balances st) ∧ hi ∈ values (daily_balances st)
    ∧ ∀ v, v ∈ values (daily_balances st) → (lo <= v <= hi)%Q.
Proof.
  unfold calculate_monthly_statistics.
  destruct l as [|t0 l0] eqn:El; [by intros [= <-]|]. rewrite <- El. clear El t0 l0.
  unfold for_items. destruct (first_raise _); [done|]. intros [= <-].
  rewrite !lookup_omap.
  destruct (group_by_month l !! k) as [mt|]; [|done]. simpl.
  destruct (month_raw mt) as [raw|] eqn:Hraw; [|done]. simpl.
  unfold month_result. destruct (0 <? count raw)%nat; [|done].
  intros [= <-]. simpl.
  exists (raw_min raw), (raw_max raw). split; [done|]. split; [done|].
  by apply (month_raw_extremes mt).
Qed.

Lemma monthly_extremes_bound_daily_witness :
  ∃ res st lo hi,
    calculate_monthly_statistics (λ q _, q) [mkTxn 2 100; mkTxn 5 300] = Ok res
    ∧ res !! (1, 1) = Some st
    ∧ min_balance st = lo ∧ max_balance st = hi
    ∧ lo ∈ values (daily_balances st) ∧ hi ∈ values (daily_balances st)
    ∧ ∀ v, v ∈ values (daily_balances st) → (lo <= v <= hi)%Q.
Proof.
  assert (∃ res st,
            calculate_monthly_statistics (λ q _, q) [mkTxn 2 100; mkTxn 5 300] = Ok res
            ∧ res !! (1, 1) = Some st) as (res & st & Hres & Hst).
  { vm_compute. eexists _, _. split; [reflexivity|]. cbv. reflexivity. }
  destruct (monthly_extremes_bound_daily _ _ _ _ _ Hres Hst) as (lo & hi & H).
  exists res, st, lo, hi. exact (conj Hres (conj Hst H)).
Defined.

End AnalyticsExtras.

(** ** More on the maintenance analysis *)

Module MaintenanceExtras.
Import Calendar Analytics Maintenance MaintenanceFacts AnalyticsExtras.
Local Open Scope Q_scope.









(** X14.  Below the target, the minimum balance that the recommendation
    names is always the target itself: the other candidate,
    [average + (target - average) / 3], is smaller. *)
Theorem deposit_plan_names_target (round : Q → nat → Q) (l : list Txn)
    (target : option Q) :
  l ≠ [] →
  let avg := mean (balance <$> l) in
  let tgt := target_of target in
  ¬ tgt == 0 → avg < tgt →
  ∃ r, analyze_balance_maintenance round l target = Full r
       ∧ recommendation r = DepositMonthly tgt tgt ((tgt - avg) / 3).
Proof.
  intros Hl. destruct l as [|t rest]; [done|]. intros avg tgt Hne Hlt.
  unfold analyze_balance_maintenance. fold avg. fold tgt.
  rewrite advise_below by done.
  eexists. split; [done|]. simpl. f_equal.
  unfold qmax. destruct (Qlt_le_dec tgt (avg + (tgt - avg) / 3)) as [Hx|]; [|done].
  exfalso. clearbody avg tgt.
  unfold Qdiv in Hx. change (/ 3) with (1 # 3) in Hx. lra.
Qed.

Lemma deposit_plan_names_target_witness :
  ∃ r, analyze_balance_maintenance (λ q _, q) [mkTxn 2 100; mkTxn 5 300] (Some 500)
         = Full r
       ∧ recommendation r =
           DepositMonthly (target_of (Some 500)) (target_of (Some 500))
             ((target_of (Some 500) - mean (balance <$> [mkTxn 2 100; mkTxn 5 300])) / 3).
Proof.
  apply (deposit_plan_names_target (λ q _, q)); [done | by vm_compute | by vm_compute].
Defined.

(** X15.  A target that is not above 0 scores 0 percent: with a negative
    target the status is still "maintained" or "below target", and the
    percentage it prints is 0. *)
Theorem nonpositive_target_scores_zero (round : Q → nat → Q) (l : list Txn)
    (target : option Q) :
  l ≠ [] →
  target_of target <= 0 →
  ∃ r, analyze_balance_maintenance round l target = Full r
       ∧ maintenance_percentage r = round 0 1%nat
       ∧ (target_of target < 0 →
            maintenance_status r = TargetMaintained 0
            ∨ maintenance_status r = BelowTarget 0).
Proof.
  intros Hl Hle. destruct l as [|t rest]; [done|].
  unfold analyze_balance_maintenance.
  assert (qlt 0 (target_of target) = false) as -> by by apply qlt_false.
  destruct (advise _ _ _) as [status rec] eqn:Hadv.
  eexists. split; [done|]. simpl. split; [done|]. intros Hneg.
  assert (¬ target_of target == 0) as Hne.
  { intros H0. rewrite H0 in Hneg. by apply Qlt_irrefl in Hneg. }
  destruct (Qlt_le_dec (mean (balance <$> t :: rest)) (target_of target)).
  - rewrite advise_below in Hadv by done. injection Hadv as <- _. by right.
  - rewrite advise_maintained in Hadv by done. injection Hadv as <- _. by left.
Qed.

Lemma nonpositive_target_scores_zero_witness :
  ∃ r, analyze_balance_maintenance (λ q _, q) [mkTxn 2 100; mkTxn 5 300] (Some (-50))
         = Full r
       ∧ maintenance_percentage r = 0
       ∧ (target_of (Some (-50)) < 0 →
            maintenance_status r = TargetMaintained 0
            ∨ maintenance_status r = BelowTarget 0).
Proof.
  apply (nonpositive_target_scores_zero (λ q _, q)); [done | by vm_compute].
Defined.

End MaintenanceExtras.

(** ** The checks of the upload endpoint *)

Module UploadExtras.
Import Str Parser Upload.

Lemma contains_char c s : contains (String c EmptyString) s = mentions c s.
Proof.
  induction s as [|a s IH]; [done|]. simpl. rewrite IH.
  rewrite (Ascii.eqb_sym c a). by destruct (Ascii.eqb a c).
Qed.

Lemma rsplit1_without_sep sep s : mentions sep s = false → rsplit1 sep s = [s].
Proof.
  induction s as [|a s IH]; [done|]. simpl.
  intros [Ha Hs]%orb_false_elim. by rewrite (IH Hs), Ha.
Qed.

(** The cut of a name at its last dot. *)
Lemma rsplit1_last sep stem ext :
  mentions sep ext = false →
  rsplit1 sep (stem +:+ String sep ext) = [stem; ext].
Proof.
  intros Hext. induction stem as [|c stem IH].
  - change ("" +:+ String sep ext) with (String sep ext). simpl.
    by rewrite (rsplit1_without_sep _ _ Hext), Ascii.eqb_refl.
  - change (String c stem +:+ String sep ext)
      with (String c (stem +:+ String sep ext)).
    simpl. by rewrite IH.
Qed.

Lemma allowed_file_split stem ext :
  mentions "." ext = false →
  allowed_file (stem +:+ String "." ext)
    = bool_decide (lower ext ∈ ALLOWED_EXTENSIONS).
Proof.
  intros Hext. unfold allowed_file.
  rewrite contains_char, ParserFacts.mentions_append, rsplit1_last by done.
  simpl. by rewrite orb_true_r.
Qed.

(** X16.  Only the text after the last dot of a name counts, in any
    case of letters: a name [stem.ext], where [ext] holds no dot, is
    allowed exactly when the lower-cased [ext] is one of pdf, png, jpg
    and jpeg. *)
Theorem allowed_file_by_last_extension (stem ext : string) :
  mentions "." ext = false →
  allowed_file (stem +:+ String "." ext) = true
  ↔ lower ext ∈ ALLOWED_EXTENSIONS.
Proof.
  intros Hext. rewrite allowed_file_split by done. apply bool_decide_eq_true.
Qed.

Lemma allowed_file_by_last_extension_witness :
  allowed_file ("statement.pdf" +:+ String "." "PnG") = true
  ↔ lower "PnG" ∈ ALLOWED_EXTENSIONS.
Proof. by apply allowed_file_by_last_extension. Defined.

Lemma lower_char_dot c : lower_char c = "."%char ↔ c = "."%char.
Proof.
  split; [|by intros ->].
  destruct c as [[] [] [] [] [] [] [] []]; vm_compute; congruence.
Qed.

Lemma lower_nil s : lower s = "" → s = "".
Proof. by destruct s. Qed.

Lemma ends_with_cons w c s :
  ends_with w (String c s) = String.eqb (String c s) w || ends_with w s.
Proof. done. Qed.

(** A name whose lower-cased text ends in ".pdf" is a stem, a dot and an
    extension without dot that reads "pdf" in lower case. *)
Lemma pdf_name_split f :
  ends_with ".pdf" (lower f) = true →
  ∃ stem ext, f = stem +:+ String "." ext
              ∧ mentions "." ext = false ∧ lower ext = "pdf".
Proof.
  induction f as [|c f IH]; [done|].
  change (lower (String c f)) with (String (lower_char c) (lower f)).
  rewrite ends_with_cons. intros [Heq|Htail]%orb_prop.
  - apply String.eqb_eq in Heq. injection Heq as Hc Hf.
    apply lower_char_dot in Hc as ->.
    exists "", f. split; [done|]. split; [|done].
    destruct f as [|c1 [|c2 [|c3 [|c4 f]]]]; try done.
    injection Hf as H1 H2 H3. simpl.
    assert (∀ a x, lower_char a = x → x ≠ "."%char → Ascii.eqb a "." = false) as Hne.
    { intros a x Ha Hx. apply Ascii.eqb_neq. intros ->. by apply Hx. }
    by rewrite (Hne c1 _ H1), (Hne c2 _ H2), (Hne c3 _ H3).
  - destruct (IH Htail) as (stem & ext & -> & Hext & Hlow).
    by exists (String c stem), ext.
Qed.

(** X17.  The upload checks let a name through exactly when its
    lower-cased text ends in ".pdf"; the refusal "Invalid file type" is
    never given, since such a name always passes [allowed_file]. *)
Theorem upload_accepts_exactly_pdf_names (file : option string) :
  check_upload file ≠ InvalidFileType
  ∧ (check_upload file = Accepted
     ↔ ∃ filename, file = Some filename ∧ ends_with ".pdf" (lower filename) = true).
Proof.
  destruct file as [f|]; simpl.
  2:{ split; [done|]. split; [done | by intros (? & ? & _)]. }
  destruct (String.eqb f "") eqn:Hempty.
  { apply String.eqb_eq in Hempty as ->.
    split; [done|]. split; [done|]. by intros (? & [= <-] & ?). }
  destruct (ends_with ".pdf" (lower f)) eqn:Hpdf; simpl.
  - destruct (pdf_name_split f Hpdf) as (stem & ext & -> & Hext & Hlow).
    rewrite allowed_file_split, Hlow by done. simpl.
    split; [done|]. split; [by eexists|done].
  - split; [done|]. split; [done|]. intros (? & [= <-] & ?). congruence.
Qed.

End UploadExtras.

(** ** The scan for amounts *)

Module ScanExtras.
Import Str Re Parser ReView ParserView ParserFacts.

Lemma append_cons c s t : String c s +:+ t = String c (s +:+ t).
Proof. done. Qed.

Lemma append_nil_l t : "" +:+ t = t.
Proof. done. Qed.

Lemma append_assoc s t u : (s +:+ t) +:+ u = s +:+ (t +:+ u).
Proof.
  induction s as [|c s IH]; [done|]. by rewrite !append_cons, IH.
Qed.

Lemma length_append s t :
  String.length (s +:+ t) = String.length s + String.length t.
Proof.
  induction s as [|c s IH]; [done|]. rewrite append_cons. simpl. by rewrite IH.
Qed.

Lemma take_append g rest :
  Str.take (String.length (g +:+ rest) - String.length rest) (g +:+ rest) = g.
Proof.
  rewrite length_append.
  replace (String.length g + String.length rest - String.length rest)
    with (String.length g) by lia.
  induction g as [|c g IH]; [by destruct rest|].
  rewrite append_cons. simpl. by rewrite IH.
Qed.

Lemma all_chars_append q s t :
  all_chars q (s +:+ t) = all_chars q s && all_chars q t.
Proof.
  induction s as [|c s IH]; [done|]. rewrite append_cons. simpl.
  by rewrite IH, andb_assoc.
Qed.

(** *** What the pieces of the amount pattern take *)

Lemma splits_cls q p : (∀ c, p c = true → q c = true) → splits q (cls p).
Proof.
  intros Hpq k s r. destruct s as [|c s]; simpl; [done|].
  destruct (p c) eqn:Hp; [|done]. intros Hk.
  exists (String c ""), s. split_and!; [done | done | |].
  - simpl. by rewrite (Hpq c Hp).
  - intros k' t Ht. rewrite append_cons, append_nil_l. simpl. by rewrite Hp.
Qed.

Lemma splits_seq q a b : splits q a → splits q b → splits q (seq a b).
Proof.
  intros Ha Hb k s r Hs. unfold seq in *.
  destruct (Ha _ _ _ Hs) as (g1 & rest1 & -> & Hr1 & Hq1 & Hagain1).
  destruct (Hb _ _ _ Hr1) as (g2 & rest2 & -> & Hr2 & Hq2 & Hagain2).
  exists (g1 +:+ g2), rest2. split_and!; [by rewrite append_assoc | done | |].
  - by rewrite all_chars_append, Hq1, Hq2.
  - intros k' t Ht. rewrite append_assoc. by apply Hagain1, Hagain2.
Qed.

Lemma splits_many1 q p : (∀ c, p c = true → q c = true) → splits q (many1 p).
Proof.
  intros Hpq k s. induction s as [|c s IH]; intros r; simpl; [done|].
  destruct (p c) eqn:Hp; [|done].
  destruct (many1 p k s) as [r'|] eqn:Hm.
  - intros [= <-]. destruct (IH r' eq_refl) as (g & rest & -> & Hr & Hq & Hagain).
    exists (String c g), rest. split_and!; [done | done | |].
    + simpl. by rewrite (Hpq c Hp), Hq.
    + intros k' t Ht. rewrite append_cons. simpl. rewrite Hp.
      destruct (Hagain k' t Ht) as [x ->]. by eexists.
  - intros Hk. exists (String c ""), s. split_and!; [done | done | |].
    + simpl. by rewrite (Hpq c Hp).
    + intros k' t Ht. rewrite append_cons, append_nil_l. simpl. rewrite Hp.
      by destruct (many1 p k' t).
Qed.

Lemma splits_id q : splits q (λ k, k).
Proof.
  intros k s r Hs. exists "", s. split_and!; [done | done | done |].
  intros k' t Ht. by rewrite append_nil_l.
Qed.

Lemma splits_rep q n a : splits q a → splits q (rep n a).
Proof.
  intros Ha. induction n as [|n IH]; simpl; [apply splits_id | by apply splits_seq].
Qed.

Lemma digit_no_space c : is_digit c = true → no_space c = true.
Proof. destruct c as [[] [] [] [] [] [] [] []]; vm_compute; congruence. Qed.

Lemma digit_or_comma_no_space c : is_digit_or_comma c = true → no_space c = true.
Proof. destruct c as [[] [] [] [] [] [] [] []]; vm_compute; congruence. Qed.

Lemma point_no_space c : Ascii.eqb "." c = true → no_space c = true.
Proof. by intros <-%Ascii.eqb_eq. Qed.

Lemma splits_amount_body : splits no_space amount_body.
Proof.
  unfold amount_body, chr, digit.
  apply splits_seq; [apply splits_many1, digit_or_comma_no_space|].
  apply splits_seq; [apply splits_cls, point_no_space|].
  apply (splits_rep _ 2), splits_cls, digit_no_space.
Qed.

(** What may follow an amount: white space, which is taken, or the end of
    the text. *)
Lemma after_amount_inv rest g e :
  alt (cls is_space) eol accept rest = Some (g, e) →
  rest = "" ∧ e = "" ∨ ∃ c, is_space c = true ∧ rest = String c e.
Proof.
  unfold alt, cls, eol, accept. destruct rest as [|c rest].
  - intros [= _ <-]. by left.
  - destruct (is_space c) eqn:Hc.
    + intros [= _ <-]. right. by exists c.
    + destruct rest; [|done].
      destruct (Ascii.eqb c nl) eqn:Hnl; [|done].
      apply Ascii.eqb_eq in Hnl as ->. done.
Qed.

Lemma amount_tail_inv s g e :
  amount_tail s = Some (g, e) →
  is_amount g = true ∧ all_chars no_space g = true
  ∧ (s = g ∧ e = "" ∨ ∃ c, is_space c = true ∧ s = g +:+ String c e).
Proof.
  unfold amount_tail, seq, group. intros Hs.
  apply splits_amount_body in Hs as (g' & rest & -> & Hk & Hq & Hagain).
  destruct (alt (cls is_space) eol accept rest) as [[x e']|] eqn:Hrest; [|done].
  rewrite take_append in Hk. injection Hk as <- <-.
  split_and!; [|done|].
  - destruct (Hagain (λ rest, match rest with "" => accept rest | _ => None end) "")
      as [x' Hx]; [by eexists|].
    rewrite append_empty_r in Hx. unfold is_amount.
    destruct (seq _ _ _ g') eqn:E; [done|].
    pose proof (eq_trans (eq_sym E) Hx). done.
  - apply after_amount_inv in Hrest as [[-> ->]|(c & Hc & ->)].
    + left. by rewrite append_empty_r.
    + right. by exists c.
Qed.

Lemma match_here_amount b s :
  match_here amount_pattern b s =
    match (if b then amount_tail s else None) with
    | Some r => Some r
    | None =>
        match s with
        | String c s' => if is_space c then amount_tail s' else None
        | EmptyString => None
        end
    end.
Proof. unfold match_here, amount_pattern, seq, alt, bol, cls. by destruct b. Qed.

(** *** The words of a text *)

Lemma words_no_space g : all_chars no_space g = true → words g = [g].
Proof.
  induction g as [|c g IH]; [done|]. simpl.
  intros [Hc Hg]%andb_prop. unfold no_space in Hc.
  apply negb_true_iff in Hc. by rewrite Hc, (IH Hg).
Qed.

Lemma words_no_space_app g c e :
  all_chars no_space g = true → is_space c = true →
  words (g +:+ String c e) = g :: words e.
Proof.
  intros Hg Hc. induction g as [|a g IH].
  - rewrite append_nil_l. simpl. by rewrite Hc.
  - rewrite append_cons. simpl in *. apply andb_prop in Hg as [Ha Hg].
    unfold no_space in Ha. apply negb_true_iff in Ha. by rewrite Ha, (IH Hg).
Qed.

Lemma amounts_among_tail ws : amounts_among (tail ws) `sublist_of` amounts_among ws.
Proof.
  destruct ws as [|w ws]; [done|]. unfold amounts_among. simpl.
  rewrite filter_cons. case_decide; [by apply sublist_cons | done].
Qed.

(** *** The scan *)

Lemma findall_zero pat b s :
  findall_from pat 0 b s =
    match match_here pat b s with
    | Some (g, rest) =>
        g :: match s with
             | EmptyString => []
             | String _ s' =>
                 findall_from pat (String.length s - String.length rest - 1) false s'
             end
    | None =>
        match s with
        | EmptyString => []
        | String _ s' => findall_from pat 0 false s'
        end
    end.
Proof. by destruct s. Qed.

(** After a match the scan goes on where the match ended. *)
Lemma findall_skip pat u s b :
  u ≠ "" →
  findall_from pat (String.length u) b (u +:+ s) = findall_from pat 0 false s.
Proof.
  revert b. induction u as [|c u IH]; intros b Hu; [done|].
  rewrite append_cons. simpl. destruct u as [|c' u]; [done|]. by apply IH.
Qed.

Lemma is_amount_nonempty g : is_amount g = true → g ≠ "".
Proof. by intros Hg ->. Qed.

(** A match at [t]: the scan resumes behind it, on a shorter text, and
    the group is the first word of [t]. *)
Lemma match_then_rest t g e b :
  amount_tail t = Some (g, e) →
  (String.length e < String.length t)%nat
  ∧ findall_from amount_pattern (String.length t - String.length e) b t
      = findall_from amount_pattern 0 false e
  ∧ ∀ found, found `sublist_of` amounts_among (tail (words e)) →
             g :: found `sublist_of` amounts_among (words t).
Proof.
  intros Ht. apply amount_tail_inv in Ht as (Hg & Hq & [[-> ->]|(c & Hc & ->)]).
  - pose proof (is_amount_nonempty g Hg) as Hne. split_and!.
    + destruct g; [done|]. simpl. lia.
    + replace (String.length g - String.length "") with (String.length g)
        by (simpl; lia).
      rewrite <- (append_empty_r g) at 2. by apply findall_skip.
    + intros found Hf. simpl in Hf. apply sublist_nil_r in Hf as ->.
      rewrite words_no_space by done. unfold amounts_among.
      rewrite filter_cons, decide_True by done. done.
  - split_and!.
    + rewrite length_append. simpl. lia.
    + replace (String.length (g +:+ String c e) - String.length e)
        with (String.length (g +:+ String c "")) by (rewrite !length_append; simpl; lia).
      replace (g +:+ String c e) with ((g +:+ String c "") +:+ e)
        by by rewrite append_assoc.
      apply findall_skip. by destruct g.
    + intros found Hf. rewrite words_no_space_app by done. unfold amounts_among.
      rewrite filter_cons, decide_True by done. apply sublist_skip.
      etrans; [exact Hf | apply amounts_among_tail].
Qed.

Lemma amount_tail_nil : amount_tail "" = None.
Proof. done. Qed.

Lemma scan_inside n :
  ∀ s, (String.length s ≤ n)%nat →
       findall_from amount_pattern 0 false s
         `sublist_of` amounts_among (tail (words s)).
Proof.
  induction n as [|n IH]; intros s Hn.
  { destruct s; [|simpl in Hn; lia]. apply sublist_nil_l. }
  rewrite findall_zero, match_here_amount.
  destruct s as [|c s]; [apply sublist_nil_l|].
  simpl in Hn. simpl words.
  destruct (is_space c) eqn:Hc.
  - simpl tail. destruct (amount_tail s) as [[g e]|] eqn:Ht.
    + destruct (match_then_rest s g e false Ht) as (Hlen & Hgo & Hsub).
      replace (String.length (String c s) - String.length e - 1)
        with (String.length s - String.length e) by (simpl; lia).
      rewrite Hgo. apply Hsub, IH. lia.
    + etrans; [apply IH; lia | apply amounts_among_tail].
  - destruct (words s) as [|w ws] eqn:Hw; simpl tail.
    + specialize (IH s ltac:(lia)). by rewrite Hw in IH.
    + specialize (IH s ltac:(lia)). by rewrite Hw in IH.
Qed.

(** X18.  The scan for amounts returns nothing but whole words of the
    block text: every amount found is a run of digits and commas, a
    point and two digits that has white space or an end of the text on
    both sides, and the amounts come in the order of the text.  (Words
    of that shape can be missed, never cut or made up.) *)
Theorem scan_returns_whole_words (full_text : string) :
  findall amount_pattern full_text `sublist_of` spec_amounts full_text.
Proof.
  unfold findall, spec_amounts. fold (amounts_among (words full_text)).
  rewrite findall_zero, match_here_amount.
  destruct (amount_tail full_text) as [[g e]|] eqn:Ht.
  - destruct full_text as [|c s]; [by rewrite amount_tail_nil in Ht|].
    destruct (match_then_rest _ g e true Ht) as (Hlen & Hgo & Hsub).
    apply Hsub.
    replace (String.length (String c s) - String.length e)
      with (S (String.length (String c s) - String.length e - 1)) in Hgo by lia.
    change (findall_from amount_pattern
              (String.length (String c s) - String.length e - 1) false s
            `sublist_of` amounts_among (tail (words e))).
    change (findall_from amount_pattern
              (S (String.length (String c s) - String.length e - 1)) true (String c s))
      with (findall_from amount_pattern
              (String.length (String c s) - String.length e - 1) false s) in Hgo.
    rewrite Hgo. by apply (scan_inside (String.length e)).
  - etrans; [|apply amounts_among_tail].
    pose proof (scan_inside _ full_text (le_n _)) as Hin.
    by rewrite findall_zero, match_here_amount in Hin.
Qed.

End ScanExtras.
